(** * request_value.lv2: a shallow embedding of [src/request_value.c]

    The plugin forwards audio, reads patch:Set messages from its control
    port and, once more than two seconds of audio have gone by, asks the
    host for a value through ui:requestValue.

    Conventions of the embedding:
    - [uint32_t], [uint64_t] and addresses are integers of [Z]; the
      wrap-around of [sample_cnt] is written out with [mod];
    - [double] is IEEE binary64, taken from the Standard Library's
      [SpecFloat] (precision 53, [emax] 1024);
    - atom payloads are lists of bytes in the byte order of a
      little-endian host;
    - the plugin's functions run in a state-and-error monad [M] over a
      [World]: the instance [*self], the host memory the ports point to,
      and the calls made into the host, oldest first.  [None] stands for a
      step the C standard leaves undefined ([memcpy] on overlapping
      buffers, a read past the end of an atom's payload). *)

From Stdlib Require Import ZArith List String Ascii Bool Lia.
From Stdlib Require Import Floats.SpecFloat.
From coqutil Require Import Byte Word.LittleEndianList.
Import ListNotations.
Local Open Scope Z_scope.

(** ** C scalar types *)

Definition LV2_URID := Z.            (* uint32_t; 0 is never a valid URID *)
Definition pointer := Z.             (* an address; 0 is the null pointer *)
Definition NULL : pointer := 0.
Definition UINT32_MAX : Z := 2 ^ 32 - 1.
Definition sizeof_float : Z := 4.

(** [uint64_t] arithmetic is modulo 2^64. *)
Definition uint64 (z : Z) : Z := z mod 2 ^ 64.

(** *** binary64 *)

Definition double := spec_float.
Definition double_of_Z (z : Z) : double := binary_normalize 53 1024 z 0 false.
Definition double_mul (x y : double) : double := SFmul 53 1024 x y.
(** [x > y] on doubles; false as soon as one side is a NaN. *)
Definition double_gt (x y : double) : bool := SFltb y x.

(** ** URIs of the LV2 headers and of the plugin *)

Local Open Scope string_scope.
Definition REQVAL_URI := "http://gareus.org/oss/lv2/request_value".
Definition LV2_DIALOGMESSAGE_URI := "http://ardour.org/lv2/dialog_message".
Definition LV2_ATOM__Blank := "http://lv2plug.in/ns/ext/atom#Blank".
Definition LV2_ATOM__Object := "http://lv2plug.in/ns/ext/atom#Object".
Definition LV2_ATOM__URID := "http://lv2plug.in/ns/ext/atom#URID".
Definition LV2_ATOM__Float := "http://lv2plug.in/ns/ext/atom#Float".
Definition LV2_ATOM__Bool := "http://lv2plug.in/ns/ext/atom#Bool".
Definition LV2_PATCH__Set := "http://lv2plug.in/ns/ext/patch#Set".
Definition LV2_PATCH__property := "http://lv2plug.in/ns/ext/patch#property".
Definition LV2_PATCH__value := "http://lv2plug.in/ns/ext/patch#value".
Definition LV2_URID__map := "http://lv2plug.in/ns/ext/urid#map".
Definition LV2_LOG__log := "http://lv2plug.in/ns/ext/log#log".
Definition LV2_LOG__Error := "http://lv2plug.in/ns/ext/log#Error".
Definition LV2_LOG__Note := "http://lv2plug.in/ns/ext/log#Note".
Definition LV2_LOG__Trace := "http://lv2plug.in/ns/ext/log#Trace".
Definition LV2_LOG__Warning := "http://lv2plug.in/ns/ext/log#Warning".
Definition LV2_UI__requestValue := "http://lv2plug.in/ns/extensions/ui#requestValue".

(** The line feed that ends every message of the plugin. *)
Definition LF : string := String (ascii_of_nat 10) EmptyString.

Definition msg_no_request_value := "ReqVal.lv2: Host does not support ui:request_value" ++ LF.
Definition msg_no_urid_map := "ReqVal.lv2: Host does not support urid:map" ++ LF.
Definition msg_no_body := "ReqVal.lv2: Malformed set message has no body." ++ LF.
Definition msg_non_urid := "ReqVal.lv2: Malformed set message has non-URID property." ++ LF.
Definition msg_no_value := "ReqVal.lv2: Malformed set message has no value." ++ LF.
Definition msg_bad_type := "ReqVal.lv2: Invalid property type, expected 'bool'." ++ LF.
Definition msg_received := "ReqVal.lv2: Received boolean = %d" ++ LF.
Definition msg_unknown := "ReqVal.lv2: Set message for unknown property." ++ LF.
Definition msg_dialog := "FOO BAR!".
Local Close Scope string_scope.

(** ** Data of the LV2 interface *)

(** An entry of the host's feature array. *)
Record LV2_Feature := { URI : string; data : pointer }.

(** An atom as seen through a [const LV2_Atom*]: the header's type and the
    [size] payload bytes that follow the header. *)
Record LV2_Atom := { atom_type : LV2_URID; atom_body : list byte }.

(** [LV2_Atom_Property_Body]. *)
Record LV2_Atom_Property_Body := {
  key : LV2_URID;
  context : LV2_URID;
  prop_value : LV2_Atom
}.

(** An atom laid out as an object: header type, [LV2_Atom_Object_Body] and
    the properties in stored order. *)
Record LV2_Atom_Object := {
  object_type : LV2_URID;
  object_id : LV2_URID;
  otype : LV2_URID;
  properties : list LV2_Atom_Property_Body
}.

(** An event of the control sequence: its time stamp and its body, which is
    either laid out as an object or is any other atom. *)
Inductive LV2_Atom_Event :=
| event_object (frames : Z) (obj : LV2_Atom_Object)
| event_atom (frames : Z) (a : LV2_Atom).

(** The events of an [LV2_Atom_Sequence], in stored order. *)
Definition LV2_Atom_Sequence := list LV2_Atom_Event.

(** [ev->body.type] *)
Definition event_type (ev : LV2_Atom_Event) : LV2_URID :=
  match ev with
  | event_object _ obj => object_type obj
  | event_atom _ a => atom_type a
  end.

(** ** Data of the plugin *)

(** The functions a [free_msg] pointer can hold. *)
Inductive free_msg_fn := fn_NULL | fn_non_free.

Record LV2_Dialog_Message := {
  free_msg : free_msg_fn;
  msg : option string;
  requires_return : bool
}.

Record ReqValURIs := {
  atom_Blank : LV2_URID;
  atom_Object : LV2_URID;
  atom_URID : LV2_URID;
  atom_Float : LV2_URID;
  atom_Bool : LV2_URID;
  patch_Set : LV2_URID;
  patch_property : LV2_URID;
  patch_value : LV2_URID;
  m_bool_test : LV2_URID;
  m_ack_test : LV2_URID
}.

Record LV2_Log_Logger := {
  logger_log : pointer;
  Error : LV2_URID;
  Note : LV2_URID;
  Trace : LV2_URID;
  Warning : LV2_URID
}.

(** Addresses inside the instance that the instance itself stores:
    [&self->dialog_message] and [&self->dialog_feature]. *)
Inductive dialog_message_ptr := addr_dialog_message.
Inductive dialog_feature_ptr := addr_dialog_feature.

(** [self->dialog_feature]: an [LV2_Feature] whose data points into [self]. *)
Record dialog_feature_t := { dialog_URI : string; dialog_data : dialog_message_ptr }.

Record ReqVal := {
  (* ports *)
  control : pointer;
  p_in : pointer;
  p_out : pointer;
  (* LV2 Output *)
  log : pointer;
  logger : LV2_Log_Logger;
  (* request param *)
  request_value : pointer;
  features : list dialog_feature_ptr;   (* the slots before the NULL terminator *)
  dialog_feature : dialog_feature_t;
  dialog_message : LV2_Dialog_Message;
  (* settings, config *)
  uris : ReqValURIs;
  sample_rate : double;
  (* state *)
  sample_cnt : Z;
  request_sent : bool
}.

Definition set_control (v : pointer) (s : ReqVal) : ReqVal :=
  {| control := v; p_in := p_in s; p_out := p_out s; log := log s;
     logger := logger s; request_value := request_value s;
     features := features s; dialog_feature := dialog_feature s;
     dialog_message := dialog_message s; uris := uris s;
     sample_rate := sample_rate s; sample_cnt := sample_cnt s;
     request_sent := request_sent s |}.

Definition set_p_in (v : pointer) (s : ReqVal) : ReqVal :=
  {| control := control s; p_in := v; p_out := p_out s; log := log s;
     logger := logger s; request_value := request_value s;
     features := features s; dialog_feature := dialog_feature s;
     dialog_message := dialog_message s; uris := uris s;
     sample_rate := sample_rate s; sample_cnt := sample_cnt s;
     request_sent := request_sent s |}.

Definition set_p_out (v : pointer) (s : ReqVal) : ReqVal :=
  {| control := control s; p_in := p_in s; p_out := v; log := log s;
     logger := logger s; request_value := request_value s;
     features := features s; dialog_feature := dialog_feature s;
     dialog_message := dialog_message s; uris := uris s;
     sample_rate := sample_rate s; sample_cnt := sample_cnt s;
     request_sent := request_sent s |}.

Definition set_dialog_message (v : LV2_Dialog_Message) (s : ReqVal) : ReqVal :=
  {| control := control s; p_in := p_in s; p_out := p_out s; log := log s;
     logger := logger s; request_value := request_value s;
     features := features s; dialog_feature := dialog_feature s;
     dialog_message := v; uris := uris s;
     sample_rate := sample_rate s; sample_cnt := sample_cnt s;
     request_sent := request_sent s |}.

Definition set_sample_cnt (v : Z) (s : ReqVal) : ReqVal :=
  {| control := control s; p_in := p_in s; p_out := p_out s; log := log s;
     logger := logger s; request_value := request_value s;
     features := features s; dialog_feature := dialog_feature s;
     dialog_message := dialog_message s; uris := uris s;
     sample_rate := sample_rate s; sample_cnt := v;
     request_sent := request_sent s |}.

Definition set_request_sent (v : bool) (s : ReqVal) : ReqVal :=
  {| control := control s; p_in := p_in s; p_out := p_out s; log := log s;
     logger := logger s; request_value := request_value s;
     features := features s; dialog_feature := dialog_feature s;
     dialog_message := dialog_message s; uris := uris s;
     sample_rate := sample_rate s; sample_cnt := sample_cnt s;
     request_sent := v |}.

Definition set_msg (v : option string) (m : LV2_Dialog_Message) :=
  {| free_msg := free_msg m; msg := v; requires_return := requires_return m |}.

Definition set_requires_return (v : bool) (m : LV2_Dialog_Message) :=
  {| free_msg := free_msg m; msg := msg m; requires_return := v |}.

(** ** The host side *)

(** What the host finds behind one slot of the feature array handed to
    [request]: the feature's URI and the dialog message its data points to,
    both read at the time of the call. *)
Record feature_seen := { seen_URI : string; seen_data : LV2_Dialog_Message }.

(** Calls that leave the plugin. *)
Inductive HostCall :=
| log_vprintf (handle : pointer) (type : LV2_URID) (fmt : string) (args : list Z)
| stderr_vfprintf (fmt : string) (args : list Z)
| request (handle : pointer) (key type : LV2_URID) (features : list feature_seen).

Record World := {
  instance : ReqVal;                          (* *self *)
  audio : pointer -> byte;                    (* memory of the audio buffers *)
  sequences : pointer -> LV2_Atom_Sequence;   (* the sequence stored at an address *)
  calls : list HostCall                       (* calls into the host, oldest first *)
}.

Definition with_instance (s : ReqVal) (w : World) : World :=
  {| instance := s; audio := audio w; sequences := sequences w; calls := calls w |}.
Definition with_audio (a : pointer -> byte) (w : World) : World :=
  {| instance := instance w; audio := a; sequences := sequences w; calls := calls w |}.
Definition with_sequences (q : pointer -> LV2_Atom_Sequence) (w : World) : World :=
  {| instance := instance w; audio := audio w; sequences := q; calls := calls w |}.
Definition with_calls (c : list HostCall) (w : World) : World :=
  {| instance := instance w; audio := audio w; sequences := sequences w; calls := c |}.

(** ** The monad of the plugin's functions *)

Definition M (A : Type) : Type := World -> option (A * World).

Definition ret {A} (a : A) : M A := fun w => Some (a, w).
Definition bind {A B} (c : M A) (k : A -> M B) : M B :=
  fun w => match c w with
           | Some (a, w') => k a w'
           | None => None
           end.
Definition undefined {A} : M A := fun _ => None.

Declare Scope M_scope.
Delimit Scope M_scope with M.
Notation "x <- c ;; k" := (bind c (fun x => k))
  (at level 61, c at next level, right associativity) : M_scope.
Notation "c ;; k" := (bind c (fun _ => k))
  (at level 61, right associativity) : M_scope.
Local Open Scope M_scope.

Definition get_self : M ReqVal := fun w => Some (instance w, w).
Definition modify_self (f : ReqVal -> ReqVal) : M unit :=
  fun w => Some (tt, with_instance (f (instance w)) w).
Definition host_call (c : HostCall) : M unit :=
  fun w => Some (tt, with_calls (calls w ++ [c]) w).
Definition read_sequence (p : pointer) : M LV2_Atom_Sequence :=
  fun w => Some (sequences w p, w).

(** ** Helpers of the LV2 headers and of libc, as the plugin uses them *)

(** [lv2_log_vprintf] (lv2/log/logger.h): the host's log when there is one,
    [stderr] otherwise. *)
Definition lv2_log_vprintf (lg : LV2_Log_Logger) (type : LV2_URID)
    (fmt : string) (args : list Z) : HostCall :=
  if negb (logger_log lg =? NULL) then log_vprintf (logger_log lg) type fmt args
  else stderr_vfprintf fmt args.

Definition lv2_log_error (lg : LV2_Log_Logger) (fmt : string) (args : list Z) : HostCall :=
  lv2_log_vprintf lg (Error lg) fmt args.

Definition lv2_log_note (lg : LV2_Log_Logger) (fmt : string) (args : list Z) : HostCall :=
  lv2_log_vprintf lg (Note lg) fmt args.

(** [lv2_atom_object_get (obj, qkey, &out, 0)] (lv2/atom/util.h) with one
    query and [out] null on entry: the value of the first property whose key
    is [qkey].  A key of 0 already ends the variadic query list, so nothing
    is looked up. *)
Definition lv2_atom_object_get (obj : LV2_Atom_Object) (qkey : LV2_URID)
    : option LV2_Atom :=
  if qkey =? 0 then None
  else option_map prop_value (find (fun p => key p =? qkey) (properties obj)).

(** [LV2_ATOM_SEQUENCE_FOREACH]: the body runs on every event, in stored
    order. *)
Fixpoint LV2_ATOM_SEQUENCE_FOREACH (seq : LV2_Atom_Sequence)
    (body : LV2_Atom_Event -> M unit) : M unit :=
  match seq with
  | [] => ret tt
  | ev :: rest => body ev ;; LV2_ATOM_SEQUENCE_FOREACH rest body
  end.

(** [(LV2_Atom_Object* )&ev->body]: meaningful when the body is laid out as
    an object. *)
Definition object_of_event (ev : LV2_Atom_Event) : M LV2_Atom_Object :=
  match ev with
  | event_object _ obj => ret obj
  | event_atom _ _ => undefined
  end.

(** [((LV2_Atom_URID* )a)->body]: the [uint32_t] in the first four payload
    bytes. *)
Definition URID_body (a : LV2_Atom) : M LV2_URID :=
  if (4 <=? Z.of_nat (List.length (atom_body a)))
  then ret (le_combine (firstn 4 (atom_body a)))
  else undefined.

(** [*((bool* )(a + 1))]: the first payload byte read as a C [bool], whose
    only values are 0 and 1. *)
Definition bool_body (a : LV2_Atom) : M bool :=
  match atom_body a with
  | b :: _ =>
      if byte.unsigned b =? 0 then ret false
      else if byte.unsigned b =? 1 then ret true
      else undefined
  | [] => undefined
  end.

(** [memcpy (dst, src, n)] on the audio memory; the buffers must not
    overlap. *)
Definition memcpy (dst src : pointer) (n : Z) : M unit :=
  fun w =>
    if (n <=? 0) || (n <=? Z.abs (dst - src)) then
      Some (tt, with_audio
                  (fun a => if (dst <=? a) && (a <? dst + n)
                            then audio w (src + (a - dst))
                            else audio w a) w)
    else None.

(** ** The plugin *)

Definition non_free (msg : option string) : M unit := ret tt.

(** A call through a [free_msg] pointer. *)
Definition call_free_msg (f : free_msg_fn) (msg : option string) : M unit :=
  match f with
  | fn_non_free => non_free msg
  | fn_NULL => undefined
  end.

Section Instantiation.

(** [urid_map map uri] is [map->map (map->handle, uri)] for the
    [LV2_URID_Map] the host keeps at address [map]. *)
Variable urid_map : pointer -> string -> LV2_URID.

(** [lv2_log_logger_init] (lv2/log/logger.h). *)
Definition lv2_log_logger_init (map log : pointer) : LV2_Log_Logger :=
  if negb (map =? NULL) then
    {| logger_log := log;
       Error := urid_map map LV2_LOG__Error;
       Note := urid_map map LV2_LOG__Note;
       Trace := urid_map map LV2_LOG__Trace;
       Warning := urid_map map LV2_LOG__Warning |}
  else
    {| logger_log := log; Error := 0; Note := 0; Trace := 0; Warning := 0 |}.

Definition map_uris (map : pointer) : ReqValURIs :=
  {| atom_Blank := urid_map map LV2_ATOM__Blank;
     atom_Object := urid_map map LV2_ATOM__Object;
     atom_URID := urid_map map LV2_ATOM__URID;
     atom_Float := urid_map map LV2_ATOM__Float;
     atom_Bool := urid_map map LV2_ATOM__Bool;
     patch_Set := urid_map map LV2_PATCH__Set;
     patch_property := urid_map map LV2_PATCH__property;
     patch_value := urid_map map LV2_PATCH__value;
     m_bool_test := urid_map map (REQVAL_URI ++ "#booltest")%string;
     m_ack_test := urid_map map (REQVAL_URI ++ "#acktest")%string |}.

(** One turn of the loop over the host's features; the accumulator is
    [(map, self->log, self->request_value)]. *)
Definition scan_feature (acc : pointer * pointer * pointer) (f : LV2_Feature)
    : pointer * pointer * pointer :=
  let '(map, log, request_value) := acc in
  if String.eqb (URI f) LV2_URID__map then (data f, log, request_value)
  else if String.eqb (URI f) LV2_LOG__log then (map, data f, request_value)
  else if String.eqb (URI f) LV2_UI__requestValue then (map, log, data f)
  else acc.

(** [instantiate]: the calls it makes and the instance, if any.  The
    instance starts zeroed ([calloc]); allocation is taken to succeed. *)
Definition instantiate (descriptor : pointer) (rate : double)
    (bundle_path : string) (host_features : list LV2_Feature)
    : list HostCall * option ReqVal :=
  let '(map, log, request_value) :=
    fold_left scan_feature host_features (NULL, NULL, NULL) in
  (* Initialise logger (if map is unavailable, will fallback to printf) *)
  let logger := lv2_log_logger_init map log in
  if request_value =? NULL then
    ([lv2_log_error logger msg_no_request_value []], None)
  else if map =? NULL then
    ([lv2_log_error logger msg_no_urid_map []], None)
  else
    ([], Some {|
      control := NULL; p_in := NULL; p_out := NULL;
      log := log; logger := logger;
      request_value := request_value;
      features := [addr_dialog_feature];
      dialog_feature := {| dialog_URI := LV2_DIALOGMESSAGE_URI;
                           dialog_data := addr_dialog_message |};
      dialog_message := {| free_msg := fn_non_free; msg := None;
                           requires_return := true |};
      uris := map_uris map;
      sample_rate := rate;
      sample_cnt := 0;
      request_sent := false |}).

End Instantiation.

Definition connect_port (port : Z) (data : pointer) : M unit :=
  modify_self (fun self =>
    match port with
    | 0 => set_control data self
    | 1 => set_p_in data self
    | 2 => set_p_out data self
    | _ => self
    end).

Definition parse_property (obj : LV2_Atom_Object) : M bool :=
  self <- get_self ;;
  match lv2_atom_object_get obj (patch_property (uris self)) with
  | None =>
      host_call (lv2_log_error (logger self) msg_no_body []) ;;
      ret false
  | Some property =>
      if negb (atom_type property =? atom_URID (uris self)) then
        host_call (lv2_log_error (logger self) msg_non_urid []) ;;
        ret false
      else
        (* Get value *)
        match lv2_atom_object_get obj (patch_value (uris self)) with
        | None =>
            host_call (lv2_log_error (logger self) msg_no_value []) ;;
            ret false
        | Some val =>
            body <- URID_body property ;;
            if body =? m_bool_test (uris self) then
              if negb (atom_type val =? atom_Bool (uris self)) then
                host_call (lv2_log_error (logger self) msg_bad_type []) ;;
                ret false
              else
                b <- bool_body val ;;
                host_call (lv2_log_note (logger self) msg_received [Z.b2z b]) ;;
                ret true
            else
              host_call (lv2_log_error (logger self) msg_unknown []) ;;
              ret false
        end
  end.

(** What the host reads through [self->features] during [request]. *)
Definition features_seen (self : ReqVal) : list feature_seen :=
  map (fun slot : dialog_feature_ptr =>
         match slot, dialog_data (dialog_feature self) with
         | addr_dialog_feature, addr_dialog_message =>
             {| seen_URI := dialog_URI (dialog_feature self);
                seen_data := dialog_message self |}
         end) (features self).

(** The body of the loop over the control events. *)
Definition control_event (ev : LV2_Atom_Event) : M unit :=
  self <- get_self ;;
  if negb (event_type ev =? atom_Object (uris self)) then
    ret tt                                    (* continue *)
  else
    obj <- object_of_event ev ;;
    if otype obj =? patch_Set (uris self) then
      _ <- parse_property obj ;; ret tt
    else ret tt.

(** [self->sample_cnt > 2 * self->sample_rate], both sides in [double]. *)
Definition past_two_seconds (self : ReqVal) : bool :=
  double_gt (double_of_Z (sample_cnt self))
            (double_mul (double_of_Z 2) (sample_rate self)).

Definition run (n_samples : Z) : M unit :=
  self <- get_self ;;
  (* just forward all audio *)
  (if negb (p_out self =? p_in self) then
     memcpy (p_out self) (p_in self) (sizeof_float * n_samples)
   else ret tt) ;;
  if control self =? NULL then
    ret tt                                    (* return *)
  else
    (* process control events *)
    seq <- read_sequence (control self) ;;
    LV2_ATOM_SEQUENCE_FOREACH seq control_event ;;
    self <- get_self ;;
    (if negb (request_sent self) && past_two_seconds self then
       modify_self (set_request_sent true) ;;
       modify_self (fun s =>
         set_dialog_message (set_msg (Some msg_dialog) (dialog_message s)) s) ;;
       modify_self (fun s =>
         set_dialog_message (set_requires_return false (dialog_message s)) s) ;;
       self <- get_self ;;
       host_call (request (request_value self) (m_bool_test (uris self))
                          (atom_Bool (uris self)) (features_seen self))
     else ret tt) ;;
    modify_self (fun s => set_sample_cnt (uint64 (sample_cnt s + n_samples)) s).

(** ** The host driving one instance *)

(** Between two calls into the plugin the host may rewrite its own memory.
    [cleanup] frees the instance and ends its life, and [extension_data]
    returns null without looking at any instance: neither is a step. *)
Definition host_writes (a : pointer -> byte) (q : pointer -> LV2_Atom_Sequence)
    : M unit :=
  fun w => Some (tt, with_sequences q (with_audio a w)).

Inductive host_step :=
| step_connect_port (port : Z) (data : pointer)
| step_run (n_samples : Z)
| step_host_writes (a : pointer -> byte) (q : pointer -> LV2_Atom_Sequence).

Definition step (s : host_step) : M unit :=
  match s with
  | step_connect_port port data => connect_port port data
  | step_run n_samples => run n_samples
  | step_host_writes a q => host_writes a q
  end.

Fixpoint steps (l : list host_step) : M unit :=
  match l with
  | [] => ret tt
  | s :: l' => step s ;; steps l'
  end.

(** The world right after a successful [instantiate]. *)
Definition fresh_world (self : ReqVal) (a : pointer -> byte)
    (q : pointer -> LV2_Atom_Sequence) : World :=
  {| instance := self; audio := a; sequences := q; calls := [] |}.

(** The [request] calls among the calls made so far. *)
Definition is_request (c : HostCall) : bool :=
  match c with request _ _ _ _ => true | _ => false end.

Definition requests (cs : list HostCall) : list HostCall := filter is_request cs.


(** ** Well-formed input and the pure reading of one cycle *)

(** The payload [lv2_atom_forge_urid] writes for [id]. *)
Definition urid_payload (id : LV2_URID) : list byte := le_split 4 id.

(** The payload [lv2_atom_forge_bool] writes for [b]: the [int32_t] 1 or 0. *)
Definition bool_payload (b : bool) : list byte := le_split 4 (Z.b2z b).

Definition bytes_eqb (x y : list byte) : bool :=
  (Nat.eqb (List.length x) (List.length y)) && (le_combine x =? le_combine y).

(** A property value the plugin can read: an atom typed URID holds four
    bytes, an atom typed Bool holds the [int32_t] 0 or 1. *)
Definition readable_atom (u : ReqValURIs) (a : LV2_Atom) : bool :=
  (if atom_type a =? atom_URID u
   then Nat.eqb (List.length (atom_body a)) 4 else true)
  && (if atom_type a =? atom_Bool u
      then bytes_eqb (atom_body a) (bool_payload false)
           || bytes_eqb (atom_body a) (bool_payload true)
      else true).

(** An event the plugin can read: one that is typed Object is laid out as
    an object, and the values of its properties are readable. *)
Definition readable_event (u : ReqValURIs) (ev : LV2_Atom_Event) : bool :=
  match ev with
  | event_object _ obj =>
      forallb (fun p => readable_atom u (prop_value p)) (properties obj)
  | event_atom _ a => negb (atom_type a =? atom_Object u)
  end.

(** The events the loop hands to [parse_property]. *)
Definition is_set_message (u : ReqValURIs) (ev : LV2_Atom_Event) : bool :=
  match ev with
  | event_object _ obj =>
      (object_type obj =? atom_Object u) && (otype obj =? patch_Set u)
  | event_atom _ _ => false
  end.

Fixpoint set_messages (u : ReqValURIs) (seq : LV2_Atom_Sequence)
    : list LV2_Atom_Object :=
  match seq with
  | [] => []
  | event_object _ obj :: rest =>
      if (object_type obj =? atom_Object u) && (otype obj =? patch_Set u)
      then obj :: set_messages u rest
      else set_messages u rest
  | event_atom _ _ :: rest => set_messages u rest
  end.

(** [parse_property] on each object of a list, in order, results dropped. *)
Fixpoint decode_each (objs : list LV2_Atom_Object) : M unit :=
  match objs with
  | [] => ret tt
  | obj :: rest => _ <- parse_property obj ;; decode_each rest
  end.

(** The test that guards the request. *)
Definition request_due (self : ReqVal) : bool :=
  negb (request_sent self) && past_two_seconds self.

(** The request the plugin makes. *)
Definition the_request (self : ReqVal) : HostCall :=
  request (request_value self) (m_bool_test (uris self)) (atom_Bool (uris self))
    [ {| seen_URI := LV2_DIALOGMESSAGE_URI;
         seen_data := {| free_msg := fn_non_free; msg := Some msg_dialog;
                         requires_return := false |} |} ].

(** The buffers of a cycle of [n_samples] frames can be handed to [memcpy]. *)
Definition buffers_apart (self : ReqVal) (n_samples : Z) : bool :=
  (sizeof_float * n_samples <=? 0)
  || (sizeof_float * n_samples <=? Z.abs (p_out self - p_in self)).

(** A cycle all of whose steps are defined. *)
Definition cycle_ok (w : World) (n_samples : Z) : bool :=
  ((p_out (instance w) =? p_in (instance w)) || buffers_apart (instance w) n_samples)
  && ((control (instance w) =? NULL)
      || forallb (readable_event (uris (instance w)))
                 (sequences w (control (instance w)))).

(** Worlds the host can bring about. *)
Inductive reachable (urid_map : pointer -> string -> LV2_URID) : World -> Prop :=
| reach_instantiate descriptor rate bundle_path host_features self a q :
    instantiate urid_map descriptor rate bundle_path host_features = ([], Some self) ->
    reachable urid_map (fresh_world self a q)
| reach_step w s w' :
    reachable urid_map w ->
    step s w = Some (tt, w') ->
    reachable urid_map w'.

(** ** Definitions for the statements *)

(** An event typed Object is laid out as an object. *)
Definition laid_out (u : ReqValURIs) (ev : LV2_Atom_Event) : bool :=
  match ev with
  | event_object _ _ => true
  | event_atom _ a => negb (atom_type a =? atom_Object u)
  end.

(** The audio memory after the forwarding step of a cycle. *)
Definition forwarded (w : World) (n_samples : Z) : pointer -> byte :=
  let self := instance w in
  if p_out self =? p_in self then audio w
  else fun a =>
         if (p_out self <=? a) && (a <? p_out self + sizeof_float * n_samples)
         then audio w (p_in self + (a - p_out self))
         else audio w a.

(** The instance after the request step and after the whole cycle. *)
Definition after_request (self : ReqVal) : ReqVal :=
  if request_due self then
    set_dialog_message
      {| free_msg := free_msg (dialog_message self); msg := Some msg_dialog;
         requires_return := false |}
      (set_request_sent true self)
  else self.

Definition after_cycle (n_samples : Z) (self : ReqVal) : ReqVal :=
  set_sample_cnt (uint64 (sample_cnt self + n_samples)) (after_request self).

(** The calls of the request step. *)
Definition request_calls (self : ReqVal) : list HostCall :=
  if request_due self then
    [request (request_value self) (m_bool_test (uris self))
             (atom_Bool (uris self)) (features_seen (after_request self))]
  else [].

(** What [instantiate] sets once and no step changes. *)
Definition configured (self : ReqVal) : Prop :=
  features self = [addr_dialog_feature]
  /\ dialog_URI (dialog_feature self) = LV2_DIALOGMESSAGE_URI
  /\ free_msg (dialog_message self) = fn_non_free
  /\ request_value self <> NULL.

(** The [request] calls made so far, against the flag. *)
Definition requested_once (w : World) : Prop :=
  requests (calls w)
  = if request_sent (instance w) then [the_request (instance w)] else [].

(** The mantissa of the double that holds [p] exactly. *)
Definition mantissa (p : positive) : positive :=
  Pos.shiftl p (Z.to_N (53 - Z.pos (digits2_pos p))).

(** The number of [request] calls made during each of the cycles [ns],
    which the host runs one after the other without touching anything
    in between. *)
Fixpoint requests_per_cycle (ns : list Z) (w : World) : option (list nat) :=
  match ns with
  | [] => Some []
  | n :: ns' =>
      match run n w with
      | Some (_, w') =>
          option_map
            (cons (List.length (requests (calls w'))
                   - List.length (requests (calls w)))%nat)
            (requests_per_cycle ns' w')
      | None => None
      end
  end.

(** One request, made during the first cycle with which the samples
    delivered so far come to exceed [limit]; [total] samples were delivered
    before the first cycle of [ns].  This is the reading of the spec. *)
Fixpoint on_crossing_cycle (limit total : Z) (ns : list Z) : list nat :=
  match ns with
  | [] => []
  | n :: ns' =>
      if limit <? total + n
      then 1%nat :: repeat 0%nat (List.length ns')
      else 0%nat :: on_crossing_cycle limit (total + n) ns'
  end.

(** One request, made during the first cycle that begins with the samples
    of the earlier cycles already above [limit]. *)
Fixpoint after_crossing_cycle (limit total : Z) (ns : list Z) : list nat :=
  match ns with
  | [] => []
  | n :: ns' =>
      if limit <? total
      then 1%nat :: repeat 0%nat (List.length ns')
      else 0%nat :: after_crossing_cycle limit (total + n) ns'
  end.

Definition total_samples (ns : list Z) : Z := fold_right Z.add 0 ns.

(** The failures of the decoder, as the spec names them. *)
Inductive decode_error :=
| NoBody | NonIdentifierProperty | NoValue | TypeMismatch | UnknownProperty.

Definition error_message (e : decode_error) : string :=
  match e with
  | NoBody => msg_no_body
  | NonIdentifierProperty => msg_non_urid
  | NoValue => msg_no_value
  | TypeMismatch => msg_bad_type
  | UnknownProperty => msg_unknown
  end.

(** The defects of a patch:Set object, in the order of the checks of the
    spec: each one supposes that the earlier checks passed. *)
Inductive malformed (u : ReqValURIs) (obj : LV2_Atom_Object) : decode_error -> Prop :=
| malformed_NoBody :
    lv2_atom_object_get obj (patch_property u) = None ->
    malformed u obj NoBody
| malformed_NonIdentifierProperty property :
    lv2_atom_object_get obj (patch_property u) = Some property ->
    atom_type property <> atom_URID u ->
    malformed u obj NonIdentifierProperty
| malformed_NoValue property :
    lv2_atom_object_get obj (patch_property u) = Some property ->
    atom_type property = atom_URID u ->
    lv2_atom_object_get obj (patch_value u) = None ->
    malformed u obj NoValue
| malformed_TypeMismatch property val :
    lv2_atom_object_get obj (patch_property u) = Some property ->
    atom_type property = atom_URID u ->
    lv2_atom_object_get obj (patch_value u) = Some val ->
    0 <= m_bool_test u <= UINT32_MAX ->
    atom_body property = urid_payload (m_bool_test u) ->
    atom_type val <> atom_Bool u ->
    malformed u obj TypeMismatch
| malformed_UnknownProperty property val id :
    lv2_atom_object_get obj (patch_property u) = Some property ->
    atom_type property = atom_URID u ->
    lv2_atom_object_get obj (patch_value u) = Some val ->
    0 <= id <= UINT32_MAX ->
    atom_body property = urid_payload id ->
    id <> m_bool_test u ->
    malformed u obj UnknownProperty.

(** The data of the last feature named [uri], [init] when none is. *)
Definition feature_data (uri : string) (fs : list LV2_Feature) (init : pointer)
    : pointer :=
  fold_left (fun acc f => if String.eqb (URI f) uri then data f else acc) fs init.

(** The host leaves the feature out of the array. *)
Definition omitted (uri : string) (fs : list LV2_Feature) : Prop :=
  forall f, In f fs -> URI f <> uri.

(** The host passes the feature, with data behind it. *)
Definition supplied (uri : string) (fs : list LV2_Feature) : Prop :=
  (exists f, In f fs /\ URI f = uri)
  /\ (forall f, In f fs -> URI f = uri -> data f <> NULL).

(** ** What the counter and the calls are measured against *)

(** The frames of the cycles among the steps [l] that find the control
    port connected; [control] is the port before the first step. *)
Fixpoint counted_samples (control : pointer) (l : list host_step) : Z :=
  match l with
  | [] => 0
  | step_connect_port port data :: l' =>
      counted_samples (if port =? 0 then data else control) l'
  | step_run n_samples :: l' =>
      (if control =? NULL then 0 else n_samples) + counted_samples control l'
  | step_host_writes _ _ :: l' => counted_samples control l'
  end.

(** A call of [request], or a line for the log, that is the instance's
    own: its request, or an error or a note through its logger. *)
Definition plugin_call (self : ReqVal) (c : HostCall) : Prop :=
  c = the_request self
  \/ exists fmt args,
       c = lv2_log_error (logger self) fmt args
       \/ c = lv2_log_note (logger self) fmt args.

(** A sample rate that no count of samples exceeds twice. *)
Definition never_due (rate : double) : Prop :=
  forall cnt, double_gt (double_of_Z cnt) (double_mul (double_of_Z 2) rate) = false.

(** The dialog message as [instantiate] leaves it and as the request
    leaves it. *)
Definition dialog_message_initial : LV2_Dialog_Message :=
  {| free_msg := fn_non_free; msg := None; requires_return := true |}.

Definition dialog_message_sent : LV2_Dialog_Message :=
  {| free_msg := fn_non_free; msg := Some msg_dialog; requires_return := false |}.

(** The object [obj] with the members [ps] in place of its own. *)
Definition with_properties (ps : list LV2_Atom_Property_Body)
    (obj : LV2_Atom_Object) : LV2_Atom_Object :=
  {| object_type := object_type obj; object_id := object_id obj;
     otype := otype obj; properties := ps |}.


(** ** A host for the examples *)

Module Demo.

Definition known_uris : list string :=
  [ LV2_ATOM__Blank; LV2_ATOM__Object; LV2_ATOM__URID; LV2_ATOM__Float;
    LV2_ATOM__Bool; LV2_PATCH__Set; LV2_PATCH__property; LV2_PATCH__value;
    (REQVAL_URI ++ "#booltest")%string; (REQVAL_URI ++ "#acktest")%string;
    LV2_LOG__Error; LV2_LOG__Note; LV2_LOG__Trace; LV2_LOG__Warning ].

Fixpoint index_of (uri : string) (l : list string) (i : Z) : Z :=
  match l with
  | [] => i
  | u :: l' => if String.eqb u uri then i else index_of uri l' (i + 1)
  end.

(** URIDs 1, 2, 3, ... in the order of [known_uris]. *)
Definition urid_map (_ : pointer) (uri : string) : LV2_URID :=
  index_of uri known_uris 1.

Definition map_feature := {| URI := LV2_URID__map; data := 1000 |}.
Definition log_feature := {| URI := LV2_LOG__log; data := 2000 |}.
Definition request_feature := {| URI := LV2_UI__requestValue; data := 3000 |}.

Definition rate_48000 : double := double_of_Z 48000.

Definition silence : pointer -> byte := fun _ => Byte.x00.
Definition no_events : pointer -> LV2_Atom_Sequence := fun _ => [].

Definition host_features : list LV2_Feature :=
[map_feature; log_feature; request_feature].

(** The instance [instantiate] returns for [host_features] at 48 kHz. *)
Definition self0 : ReqVal :=
{| control := NULL; p_in := NULL; p_out := NULL;
   log := 2000; logger := lv2_log_logger_init urid_map 1000 2000;
   request_value := 3000;
   features := [addr_dialog_feature];
   dialog_feature := {| dialog_URI := LV2_DIALOGMESSAGE_URI;
                        dialog_data := addr_dialog_message |};
   dialog_message := {| free_msg := fn_non_free; msg := None;
                        requires_return := true |};
   uris := map_uris urid_map 1000;
   sample_rate := rate_48000;
   sample_cnt := 0;
   request_sent := false |}.

Definition uris0 : ReqValURIs := uris self0.

(** A patch:Set message that sets the booltest property to [b]. *)
Definition set_bool (b : bool) : LV2_Atom_Object :=
{| object_type := atom_Object uris0; object_id := 0; otype := patch_Set uris0;
   properties :=
     [ {| key := patch_property uris0; context := 0;
          prop_value := {| atom_type := atom_URID uris0;
                           atom_body := urid_payload (m_bool_test uris0) |} |};
       {| key := patch_value uris0; context := 0;
          prop_value := {| atom_type := atom_Bool uris0;
                           atom_body := bool_payload b |} |} ] |}.

(** A patch:Set message without a value. *)
Definition set_nothing : LV2_Atom_Object :=
{| object_type := atom_Object uris0; object_id := 0; otype := patch_Set uris0;
   properties :=
     [ {| key := patch_property uris0; context := 0;
          prop_value := {| atom_type := atom_URID uris0;
                           atom_body := urid_payload (m_bool_test uris0) |} |} ] |}.

(** The same object as [set_bool true], tagged Blank. *)
Definition blank_set : LV2_Atom_Object :=
{| object_type := atom_Blank uris0; object_id := 0; otype := patch_Set uris0;
   properties := properties (set_bool true) |}.

Definition a_float : LV2_Atom :=
{| atom_type := atom_Float uris0; atom_body := le_split 4 1065353216 |}.

(** The control port is at address 500, the audio input at 4096 and the
  audio output at 8192. *)
Definition events : pointer -> LV2_Atom_Sequence :=
fun p => if p =? 500
         then [ event_atom 0 a_float; event_object 1 set_nothing;
                event_object 1 blank_set; event_object 2 (set_bool true) ]
         else [].

Definition ramp : pointer -> byte := fun a => byte.of_Z a.

Definition plugged : ReqVal :=
  set_p_out 2097152 (set_p_in 1048576 (set_control 500 self0)).

Definition world0 : World := fresh_world self0 ramp events.
Definition world1 : World := with_instance plugged world0.
Definition quiet1 : World := with_sequences no_events world1.

(** A result that is not undefined. *)
Definition defined {A} (r : option A) : bool :=
  match r with Some _ => true | None => false end.

(** The world the host is in after the steps [l], started in [w]. *)
Definition after (l : list host_step) (w : World) : World :=
  match steps l w with
  | Some (_, w') => w'
  | None => w
  end.

(** Ports connected, then three cycles over the same events. *)
Definition session : list host_step :=
  [ step_connect_port 0 500; step_connect_port 1 1048576;
    step_connect_port 2 2097152;
    step_run 96001; step_run 64; step_run 64 ].

(** Ports connected, then one cycle that takes the counter past two
    seconds. *)
Definition warm_up : list host_step :=
  [ step_connect_port 0 500; step_connect_port 1 1048576;
    step_connect_port 2 2097152; step_run 96001 ].

(** A control sequence that holds one message, setting booltest to false. *)
Definition one_message : pointer -> LV2_Atom_Sequence :=
  fun _ => [event_object 7 (set_bool false)].

Definition world2 : World := with_sequences one_message world1.



End Demo.

(** * Proofs *)

(** ** Reading payloads *)

Lemma bytes_eqb_eq (x y : list byte) : bytes_eqb x y = true -> x = y.
Proof.
  unfold bytes_eqb. intros H.
  apply andb_true_iff in H as [Hlen Hval].
  apply Nat.eqb_eq in Hlen. apply Z.eqb_eq in Hval.
  now apply le_combine_inj.
Qed.

Lemma URID_body_payload (a : LV2_Atom) (id : LV2_URID) (w : World) :
  0 <= id <= UINT32_MAX ->
  atom_body a = urid_payload id ->
  URID_body a w = Some (id, w).
Proof.
  intros Hid Hbody. unfold URID_body, urid_payload in *.
  rewrite Hbody, length_le_split. cbn [Z.of_nat Z.leb Z.compare Pos.of_succ_nat Pos.succ Pos.compare Pos.compare_cont].
  replace (firstn 4 (le_split 4 id)) with (le_split 4 id)
    by (symmetry; apply firstn_all2; rewrite length_le_split; auto).
  rewrite le_combine_split. unfold ret. do 2 f_equal.
  apply Z.mod_small. unfold UINT32_MAX in Hid. cbn. lia.
Qed.

Lemma bool_body_payload (a : LV2_Atom) (b : bool) (w : World) :
  atom_body a = bool_payload b ->
  bool_body a w = Some (b, w).
Proof.
  intros Hbody. unfold bool_body. rewrite Hbody. now destruct b.
Qed.

Lemma URID_body_pure (a : LV2_Atom) (w w' : World) (id : LV2_URID) :
  URID_body a w = Some (id, w') -> w' = w.
Proof.
  unfold URID_body, ret, undefined.
  destruct (4 <=? _); congruence.
Qed.

Lemma bool_body_pure (a : LV2_Atom) (w w' : World) (b : bool) :
  bool_body a w = Some (b, w') -> w' = w.
Proof.
  unfold bool_body, ret, undefined.
  destruct (atom_body a) as [|x l]; [congruence|].
  destruct (byte.unsigned x =? 0); [congruence|].
  destruct (byte.unsigned x =? 1); congruence.
Qed.

(** ** Logging never is a request *)

Lemma lv2_log_vprintf_not_request lg type fmt args :
  is_request (lv2_log_vprintf lg type fmt args) = false.
Proof. unfold lv2_log_vprintf. now destruct (negb _). Qed.

Lemma requests_app (xs ys : list HostCall) :
  requests (xs ++ ys) = requests xs ++ requests ys.
Proof. apply filter_app. Qed.

Lemma with_calls_same (w : World) : with_calls (calls w ++ []) w = w.
Proof. rewrite app_nil_r. now destruct w. Qed.

(** ** The decoder *)

(** The one call by which [parse_property] reports on [obj]; it is read off
    the object and the instance only. *)
Lemma parse_property_effect (obj : LV2_Atom_Object) (w w' : World) (r : bool) :
  parse_property obj w = Some (r, w') ->
  exists c, is_request c = false /\ w' = with_calls (calls w ++ [c]) w.
Proof.
  unfold parse_property, bind, get_self, host_call, ret,
    lv2_log_error, lv2_log_note.
  destruct (lv2_atom_object_get obj (patch_property _)) as [property|].
  2:{ intros [= <- <-]. eexists. split; [apply lv2_log_vprintf_not_request|reflexivity]. }
  destruct (negb (atom_type property =? _)).
  { intros [= <- <-]. eexists. split; [apply lv2_log_vprintf_not_request|reflexivity]. }
  destruct (lv2_atom_object_get obj (patch_value _)) as [val|].
  2:{ intros [= <- <-]. eexists. split; [apply lv2_log_vprintf_not_request|reflexivity]. }
  destruct (URID_body property w) as [[id w1]|] eqn:Hid; [|discriminate].
  apply URID_body_pure in Hid. subst w1.
  destruct (id =? _).
  2:{ intros [= <- <-]. eexists. split; [apply lv2_log_vprintf_not_request|reflexivity]. }
  destruct (negb (atom_type val =? _)).
  { intros [= <- <-]. eexists. split; [apply lv2_log_vprintf_not_request|reflexivity]. }
  destruct (bool_body val w) as [[b w1]|] eqn:Hb; [|discriminate].
  apply bool_body_pure in Hb. subst w1.
  intros [= <- <-]. eexists. split; [apply lv2_log_vprintf_not_request|reflexivity].
Qed.

Lemma lv2_atom_object_get_In (obj : LV2_Atom_Object) (k : LV2_URID) (a : LV2_Atom) :
  lv2_atom_object_get obj k = Some a ->
  exists p, In p (properties obj) /\ prop_value p = a.
Proof.
  unfold lv2_atom_object_get. destruct (k =? 0); [discriminate|].
  destruct (find _ _) as [p|] eqn:Hfind; [|discriminate].
  intros [= <-]. exists p. split; [|reflexivity].
  now apply find_some in Hfind.
Qed.

Lemma readable_lookup (u : ReqValURIs) (obj : LV2_Atom_Object) (k : LV2_URID)
    (a : LV2_Atom) :
  forallb (fun p => readable_atom u (prop_value p)) (properties obj) = true ->
  lv2_atom_object_get obj k = Some a ->
  readable_atom u a = true.
Proof.
  intros Hall Hget. apply lv2_atom_object_get_In in Hget as (p & Hin & <-).
  rewrite forallb_forall in Hall. now apply Hall.
Qed.

(** On readable values every step of the decoder is defined. *)
Lemma parse_property_defined (obj : LV2_Atom_Object) (w : World) :
  forallb (fun p => readable_atom (uris (instance w)) (prop_value p))
          (properties obj) = true ->
  exists r c, parse_property obj w = Some (r, with_calls (calls w ++ [c]) w)
              /\ is_request c = false.
Proof.
  intros Hall.
  unfold parse_property, bind, get_self, host_call, ret,
    lv2_log_error, lv2_log_note.
  destruct (lv2_atom_object_get obj (patch_property _)) as [property|] eqn:Hp.
  2:{ do 2 eexists. split; [reflexivity|apply lv2_log_vprintf_not_request]. }
  destruct (atom_type property =? _) eqn:Hty; cbn [negb].
  2:{ do 2 eexists. split; [reflexivity|apply lv2_log_vprintf_not_request]. }
  destruct (lv2_atom_object_get obj (patch_value _)) as [val|] eqn:Hv.
  2:{ do 2 eexists. split; [reflexivity|apply lv2_log_vprintf_not_request]. }
  pose proof (readable_lookup _ _ _ _ Hall Hp) as Rp.
  pose proof (readable_lookup _ _ _ _ Hall Hv) as Rv.
  unfold readable_atom in Rp, Rv. rewrite Hty in Rp.
  apply andb_true_iff in Rp as [Rp _]. apply Nat.eqb_eq in Rp.
  unfold URID_body at 1. rewrite Rp. cbn [Z.of_nat Pos.of_succ_nat Pos.succ Z.leb Z.compare Pos.compare Pos.compare_cont].
  unfold ret at 1.
  destruct (le_combine _ =? _).
  2:{ do 2 eexists. split; [reflexivity|apply lv2_log_vprintf_not_request]. }
  destruct (atom_type val =? atom_Bool _) eqn:Htv; cbn [negb].
  2:{ do 2 eexists. split; [reflexivity|apply lv2_log_vprintf_not_request]. }
  apply andb_true_iff in Rv as [_ Rv]. apply orb_true_iff in Rv.
  assert (exists b, atom_body val = bool_payload b) as [b Hb].
  { destruct Rv as [Rv|Rv]; apply bytes_eqb_eq in Rv; eauto. }
  rewrite (bool_body_payload _ _ _ Hb).
  do 2 eexists. split; [reflexivity|apply lv2_log_vprintf_not_request].
Qed.

(** ** The loop over the control events *)

Lemma readable_laid_out (u : ReqValURIs) (ev : LV2_Atom_Event) :
  readable_event u ev = true -> laid_out u ev = true.
Proof. now destruct ev. Qed.

(** An event that is no patch:Set object goes by without any effect. *)
Lemma control_event_skip (ev : LV2_Atom_Event) (w : World) :
  laid_out (uris (instance w)) ev = true ->
  is_set_message (uris (instance w)) ev = false ->
  control_event ev w = Some (tt, w).
Proof.
  unfold control_event, bind, get_self, ret.
  destruct ev as [frames obj|frames a]; cbn [event_type laid_out is_set_message object_of_event].
  - intros _ H. destruct (object_type obj =? _); cbn [negb andb] in *; [|reflexivity].
    unfold ret. now rewrite H.
  - intros H _. now rewrite H.
Qed.

(** A patch:Set object is handed to the decoder, whose result is dropped. *)
Lemma control_event_set (frames : Z) (obj : LV2_Atom_Object) (w : World) :
  is_set_message (uris (instance w)) (event_object frames obj) = true ->
  control_event (event_object frames obj) w
  = (_ <- parse_property obj ;; ret tt) w.
Proof.
  unfold control_event, bind at 1 2, get_self, ret.
  cbn [event_type is_set_message object_of_event].
  intros H. apply andb_true_iff in H as [H1 H2].
  rewrite H1. cbn [negb]. unfold bind, ret. now rewrite H2.
Qed.

Lemma set_messages_cons (u : ReqValURIs) (ev : LV2_Atom_Event) (rest : LV2_Atom_Sequence) :
  set_messages u (ev :: rest)
  = match ev with
    | event_object _ obj =>
        if is_set_message u ev then obj :: set_messages u rest
        else set_messages u rest
    | event_atom _ _ => set_messages u rest
    end.
Proof. now destruct ev. Qed.

(** The loop is the decoder run on the patch:Set objects of the sequence,
    one after the other in stored order. *)
Lemma foreach_decode_each (seq : LV2_Atom_Sequence) (w : World) :
  forallb (laid_out (uris (instance w))) seq = true ->
  LV2_ATOM_SEQUENCE_FOREACH seq control_event w
  = decode_each (set_messages (uris (instance w)) seq) w.
Proof.
  revert w. induction seq as [|ev rest IH]; intros w Hall; [reflexivity|].
  cbn [forallb] in Hall. apply andb_true_iff in Hall as [Hev Hrest].
  cbn [LV2_ATOM_SEQUENCE_FOREACH]. rewrite set_messages_cons.
  destruct (is_set_message (uris (instance w)) ev) eqn:Hset.
  - destruct ev as [frames obj|frames a]; [|discriminate].
    unfold bind at 1. rewrite (control_event_set _ _ _ Hset).
    cbn [decode_each]. unfold bind, ret.
    destruct (parse_property obj w) as [[r w1]|] eqn:Hparse; [|reflexivity].
    apply parse_property_effect in Hparse as (c & _ & ->).
    exact (IH (with_calls (calls w ++ [c]) w) Hrest).
  - unfold bind at 1. rewrite (control_event_skip _ _ Hev Hset).
    rewrite IH by assumption. now destruct ev.
Qed.

(** Whatever the event, the loop body only appends log calls: one for a
    patch:Set object, none otherwise. *)
Lemma control_event_effect (ev : LV2_Atom_Event) (w w' : World) :
  control_event ev w = Some (tt, w') ->
  exists cs, requests cs = []
    /\ List.length cs = (if is_set_message (uris (instance w)) ev then 1 else 0)%nat
    /\ w' = with_calls (calls w ++ cs) w.
Proof.
  destruct (is_set_message (uris (instance w)) ev) eqn:Hset.
  - destruct ev as [frames obj|frames a]; [|discriminate].
    rewrite (control_event_set _ _ _ Hset). unfold bind, ret.
    destruct (parse_property obj w) as [[r w1]|] eqn:Hparse; [|discriminate].
    intros [= <-]. apply parse_property_effect in Hparse as (c & Hc & ->).
    exists [c]. cbn. now rewrite Hc.
  - intros H. exists []. rewrite with_calls_same. repeat split.
    destruct ev as [frames obj|frames a].
    + rewrite control_event_skip in H by auto. congruence.
    + unfold control_event, bind, get_self, ret in H.
      cbn [event_type object_of_event] in H.
      destruct (negb _); unfold undefined in H; congruence.
Qed.

Lemma foreach_effect (seq : LV2_Atom_Sequence) (w w' : World) :
  LV2_ATOM_SEQUENCE_FOREACH seq control_event w = Some (tt, w') ->
  exists cs, requests cs = []
    /\ List.length cs = List.length (set_messages (uris (instance w)) seq)
    /\ w' = with_calls (calls w ++ cs) w.
Proof.
  revert w. induction seq as [|ev rest IH]; intros w.
  - intros [= <-]. exists []. now rewrite with_calls_same.
  - cbn [LV2_ATOM_SEQUENCE_FOREACH]. unfold bind.
    destruct (control_event ev w) as [[[] w1]|] eqn:Hev; [|discriminate].
    apply control_event_effect in Hev as (cs1 & Hreq1 & Hlen1 & ->).
    intros H. apply IH in H as (cs2 & Hreq2 & Hlen2 & ->).
    exists (cs1 ++ cs2). rewrite requests_app, Hreq1, Hreq2.
    split; [reflexivity|]. split.
    + rewrite length_app, Hlen1, Hlen2, set_messages_cons.
      cbn [with_calls instance].
      destruct ev; [destruct (is_set_message _ _)|]; reflexivity.
    + cbn [with_calls calls instance]. now rewrite app_assoc.
Qed.

Lemma control_event_defined (ev : LV2_Atom_Event) (w : World) :
  readable_event (uris (instance w)) ev = true ->
  exists w', control_event ev w = Some (tt, w').
Proof.
  intros Hr.
  destruct (is_set_message (uris (instance w)) ev) eqn:Hset.
  - destruct ev as [frames obj|frames a]; [|discriminate].
    rewrite (control_event_set _ _ _ Hset). unfold bind, ret.
    destruct (parse_property_defined obj w Hr) as (r & c & -> & _). eauto.
  - rewrite control_event_skip; eauto using readable_laid_out.
Qed.

Lemma foreach_defined (seq : LV2_Atom_Sequence) (w : World) :
  forallb (readable_event (uris (instance w))) seq = true ->
  exists w', LV2_ATOM_SEQUENCE_FOREACH seq control_event w = Some (tt, w').
Proof.
  revert w. induction seq as [|ev rest IH]; intros w Hall.
  - now exists w.
  - cbn [forallb] in Hall. apply andb_true_iff in Hall as [Hev Hrest].
    cbn [LV2_ATOM_SEQUENCE_FOREACH]. unfold bind.
    destruct (control_event_defined ev w Hev) as (w1 & Hw1). rewrite Hw1.
    apply control_event_effect in Hw1 as (cs & _ & _ & ->).
    exact (IH (with_calls (calls w ++ cs) w) Hrest).
Qed.

(** ** One cycle *)

Lemma with_audio_same (w : World) : with_audio (audio w) w = w.
Proof. now destruct w. Qed.

(** What a cycle does, when it is defined. *)
Lemma run_effect (n_samples : Z) (w w' : World) :
  run n_samples w = Some (tt, w') ->
  if control (instance w) =? NULL then
    w' = with_audio (forwarded w n_samples) w
  else
    exists cs, requests cs = []
      /\ List.length cs
         = List.length (set_messages (uris (instance w))
                                     (sequences w (control (instance w))))
      /\ w' = {| instance := after_cycle n_samples (instance w);
                 audio := forwarded w n_samples;
                 sequences := sequences w;
                 calls := calls w ++ cs ++ request_calls (instance w) |}.
Proof.
  unfold run. unfold bind at 1 2. unfold get_self at 1.
  assert (Hfwd : forall w1,
    (if negb (p_out (instance w) =? p_in (instance w))
     then memcpy (p_out (instance w)) (p_in (instance w)) (sizeof_float * n_samples)
     else ret tt) w = Some (tt, w1) ->
    w1 = with_audio (forwarded w n_samples) w).
  { intros w1. unfold forwarded, memcpy, ret.
    destruct (p_out (instance w) =? p_in (instance w)); cbn [negb].
    - intros [= <-]. now rewrite with_audio_same.
    - destruct (_ || _); congruence. }
  destruct ((if negb (p_out (instance w) =? p_in (instance w))
             then memcpy (p_out (instance w)) (p_in (instance w))
                         (sizeof_float * n_samples)
             else ret tt) w) as [[[] w1]|] eqn:E; [|discriminate].
  specialize (Hfwd w1 eq_refl). subst w1. clear E.
  destruct (control (instance w) =? NULL).
  { now intros [= <-]. }
  unfold bind at 1. unfold read_sequence at 1. cbn [sequences with_audio instance].
  unfold bind at 1.
  destruct (LV2_ATOM_SEQUENCE_FOREACH _ _ _) as [[[] w2]|] eqn:Hloop; [|discriminate].
  apply foreach_effect in Hloop as (cs & Hreq & Hlen & ->).
  cbn [with_audio with_calls instance calls] in *.
  exists cs. split; [assumption|]. split; [assumption|].
  revert H. unfold bind, get_self, modify_self, host_call, ret.
  cbn [with_audio with_calls with_instance instance calls audio sequences].
  unfold request_calls, after_cycle, after_request, request_due.
  destruct (negb (request_sent (instance w)) && past_two_seconds (instance w));
    intros [= <-].
  - rewrite <- app_assoc. reflexivity.
  - rewrite app_nil_r. reflexivity.
Qed.

(** The loop of a connected cycle is the loop over the control sequence,
    and the calls of the cycle are those of the loop, then those of the
    request step. *)
Lemma run_loop (n_samples : Z) (w w' : World) :
  run n_samples w = Some (tt, w') ->
  (control (instance w) =? NULL) = false ->
  exists w2,
    LV2_ATOM_SEQUENCE_FOREACH (sequences w (control (instance w))) control_event
      (with_audio (forwarded w n_samples) w) = Some (tt, w2)
    /\ calls w' = calls w2 ++ request_calls (instance w).
Proof.
  intros Hrun Hc. revert Hrun.
  unfold run. unfold bind at 1 2. unfold get_self at 1.
  assert (Hfwd : forall w1,
    (if negb (p_out (instance w) =? p_in (instance w))
     then memcpy (p_out (instance w)) (p_in (instance w)) (sizeof_float * n_samples)
     else ret tt) w = Some (tt, w1) ->
    w1 = with_audio (forwarded w n_samples) w).
  { intros w1. unfold forwarded, memcpy, ret.
    destruct (p_out (instance w) =? p_in (instance w)); cbn [negb].
    - intros [= <-]. now rewrite with_audio_same.
    - destruct (_ || _); congruence. }
  destruct ((if negb (p_out (instance w) =? p_in (instance w))
             then memcpy (p_out (instance w)) (p_in (instance w))
                         (sizeof_float * n_samples)
             else ret tt) w) as [[[] w1]|] eqn:E; [|discriminate].
  specialize (Hfwd w1 eq_refl). subst w1. clear E.
  rewrite Hc.
  unfold bind at 1. unfold read_sequence at 1. cbn [sequences with_audio instance].
  unfold bind at 1.
  destruct (LV2_ATOM_SEQUENCE_FOREACH _ _ _) as [[[] w2]|] eqn:Hloop; [|discriminate].
  intros H. exists w2. split; [reflexivity|].
  apply foreach_effect in Hloop as (cs & _ & _ & ->).
  cbn [with_audio with_calls instance calls] in *.
  revert H. unfold bind, get_self, modify_self, host_call, ret.
  cbn [with_audio with_calls with_instance instance calls audio sequences].
  unfold request_calls, after_request, request_due.
  destruct (negb (request_sent (instance w)) && past_two_seconds (instance w));
    intros [= <-]; cbn [calls with_calls with_instance]; [reflexivity|].
  now rewrite app_nil_r.
Qed.

(** A cycle on buffers that do not overlap and on readable events is
    defined. *)
Lemma run_defined (n_samples : Z) (w : World) :
  cycle_ok w n_samples = true ->
  exists w', run n_samples w = Some (tt, w').
Proof.
  unfold cycle_ok, buffers_apart. intros H.
  apply andb_true_iff in H as [Hbuf Hseq].
  unfold run. unfold bind at 1 2. unfold get_self at 1.
  assert (exists a, (if negb (p_out (instance w) =? p_in (instance w))
             then memcpy (p_out (instance w)) (p_in (instance w))
                         (sizeof_float * n_samples)
             else ret tt) w = Some (tt, with_audio a w)) as [a ->].
  { destruct (p_out (instance w) =? p_in (instance w)); cbn [negb orb] in *.
    - exists (audio w). now rewrite with_audio_same.
    - unfold memcpy. rewrite Hbuf. eauto. }
  destruct (control (instance w) =? NULL) eqn:Hc; [now eexists|].
  cbn [orb] in Hseq.
  unfold bind at 1. unfold read_sequence at 1. cbn [sequences with_audio instance].
  unfold bind at 1.
  destruct (foreach_defined (sequences w (control (instance w))) (with_audio a w) Hseq)
    as (w2 & ->).
  unfold bind, get_self, modify_self, host_call, ret.
  destruct (negb _ && _); eauto.
Qed.

(** ** Reachable worlds *)

Lemma instantiate_configured urid_map descriptor rate bundle_path host_features cs self :
  instantiate urid_map descriptor rate bundle_path host_features = (cs, Some self) ->
  configured self /\ sample_cnt self = 0 /\ request_sent self = false
  /\ sample_rate self = rate /\ control self = NULL.
Proof.
  unfold instantiate.
  destruct (fold_left _ _ _) as [[map lg] rv].
  destruct (rv =? NULL) eqn:Hrv; [discriminate|].
  destruct (map =? NULL); [discriminate|].
  intros [= <- <-]. unfold configured. cbn.
  apply Z.eqb_neq in Hrv. repeat split; assumption.
Qed.

Lemma configured_after_cycle (n_samples : Z) (self : ReqVal) :
  configured self -> configured (after_cycle n_samples self).
Proof.
  unfold configured, after_cycle, after_request.
  now destruct (request_due self).
Qed.

Lemma step_configured (s : host_step) (w w' : World) :
  step s w = Some (tt, w') ->
  configured (instance w) -> configured (instance w').
Proof.
  destruct s as [port d|n|a q]; cbn [step].
  - unfold connect_port, modify_self. intros [= <-]. cbn [instance with_instance].
    destruct port as [|[[]|[]|]|]; auto.
  - intros H. apply run_effect in H.
    destruct (control (instance w) =? NULL).
    + now subst w'.
    + destruct H as (cs & _ & _ & ->). apply configured_after_cycle.
  - unfold host_writes. now intros [= <-].
Qed.

Lemma reachable_configured urid_map (w : World) :
  reachable urid_map w -> configured (instance w).
Proof.
  induction 1 as [d rate bp hf self a q Hinst|w s w' _ IH Hstep].
  - now apply instantiate_configured in Hinst.
  - eauto using step_configured.
Qed.

(** On a configured instance the request is [the_request]. *)
Lemma request_calls_configured (self : ReqVal) :
  configured self ->
  request_calls self = if request_due self then [the_request self] else [].
Proof.
  intros (Hf & Hu & Hfree & _). unfold request_calls, the_request, after_request.
  destruct (request_due self); [|reflexivity].
  unfold features_seen. cbn. rewrite Hf. cbn.
  destruct (dialog_data (dialog_feature self)). now rewrite Hu, Hfree.
Qed.

Lemma the_request_after_cycle (n_samples : Z) (self : ReqVal) :
  the_request (after_cycle n_samples self) = the_request self.
Proof.
  unfold the_request, after_cycle, after_request.
  now destruct (request_due self).
Qed.

Lemma request_sent_after_cycle (n_samples : Z) (self : ReqVal) :
  request_sent (after_cycle n_samples self)
  = request_sent self || past_two_seconds self.
Proof.
  unfold after_cycle, after_request, request_due.
  destruct (request_sent self) eqn:Hs, (past_two_seconds self); cbn; auto.
Qed.

Lemma step_requested_once (s : host_step) (w w' : World) :
  configured (instance w) ->
  step s w = Some (tt, w') ->
  requested_once w -> requested_once w'.
Proof.
  unfold requested_once. intros Hconf.
  destruct s as [port d|n|a q]; cbn [step].
  - unfold connect_port, modify_self. intros [= <-]. cbn [instance with_instance calls].
    destruct port as [|[[]|[]|]|]; auto.
  - intros H. apply run_effect in H.
    destruct (control (instance w) =? NULL).
    + now subst w'.
    + destruct H as (cs & Hreq & _ & ->). cbn [instance calls].
      rewrite !requests_app, Hreq, request_sent_after_cycle, the_request_after_cycle.
      rewrite request_calls_configured by assumption. unfold request_due.
      intros ->. cbn [app].
      destruct (request_sent (instance w)), (past_two_seconds (instance w)); cbn;
        try reflexivity.
  - unfold host_writes. now intros [= <-].
Qed.

Lemma reachable_requested_once urid_map (w : World) :
  reachable urid_map w -> requested_once w.
Proof.
  induction 1 as [d rate bp hf self a q Hinst|w s w' Hw IH Hstep].
  - apply instantiate_configured in Hinst as (_ & _ & Hsent & _).
    unfold requested_once. cbn. now rewrite Hsent.
  - eauto using step_requested_once, reachable_configured.
Qed.

(** ** binary64: integers below 2^53 convert exactly, and doubling is exact *)

Lemma digits2_pos_size (p : positive) : digits2_pos p = Pos.size p.
Proof. induction p; cbn; congruence. Qed.

Lemma digits2_pos_iter_xO (p k : positive) :
  Z.pos (digits2_pos (Pos.iter xO p k)) = Z.pos (digits2_pos p) + Z.pos k.
Proof.
  induction k as [|k IH] using Pos.peano_ind.
  - cbn. lia.
  - rewrite Pos.iter_succ. cbn [digits2_pos]. lia.
Qed.

Lemma digits2_pos_bounds (p : positive) :
  2 ^ (Z.pos (digits2_pos p) - 1) <= Z.pos p < 2 ^ Z.pos (digits2_pos p).
Proof.
  rewrite digits2_pos_size.
  pose proof (Pos.size_gt p) as Hgt. pose proof (Pos.size_le p) as Hle.
  apply Pos2Z.pos_lt_pos in Hgt. apply Pos2Z.pos_le_pos in Hle.
  rewrite Pos2Z.inj_pow in Hgt, Hle.
  split; [|exact Hgt].
  replace (Z.pos (Pos.size p)) with (Z.succ (Z.pos (Pos.size p) - 1)) in Hle by lia.
  rewrite Z.pow_succ_r in Hle by lia. lia.
Qed.

Lemma binary_round_aux_exact (s : bool) (m : positive) (e : Z) :
  Z.pos (digits2_pos m) = 53 -> -1074 <= e <= 971 ->
  binary_round_aux 53 1024 s (Z.pos m) e loc_Exact = S754_finite s m e.
Proof.
  intros Hd He. unfold binary_round_aux, shr_fexp. cbn [Zdigits2 shr_record_of_loc].
  rewrite Hd.
  replace (fexp 53 1024 (53 + e)) with e by (unfold fexp, emin; lia).
  rewrite Z.sub_diag. cbn [shr shr_m loc_of_shr_record round_nearest_even Zdigits2 shr_record_of_loc].
  rewrite Hd.
  replace (fexp 53 1024 (53 + e)) with e by (unfold fexp, emin; lia).
  rewrite Z.sub_diag. cbn [shr shr_m].
  replace (e <=? 1024 - 53) with true by (symmetry; apply Z.leb_le; lia).
  reflexivity.
Qed.

Lemma double_of_Z_exact (p : positive) :
  Z.pos (digits2_pos p) <= 53 ->
  double_of_Z (Z.pos p)
  = S754_finite false (mantissa p) (Z.pos (digits2_pos p) - 53).
Proof.
  intros Hd. unfold double_of_Z, binary_normalize, binary_round, mantissa.
  replace (fexp 53 1024 (Z.pos (digits2_pos p) + 0))
    with (Z.pos (digits2_pos p) - 53) by (unfold fexp, emin; lia).
  unfold shl_align. rewrite Z.sub_0_r.
  destruct (Z.pos (digits2_pos p) - 53) as [|k|k] eqn:Hk; [| lia |].
  - replace (53 - Z.pos (digits2_pos p)) with 0 by lia. cbn [Z.to_N Pos.shiftl].
    apply binary_round_aux_exact; lia.
  - replace (53 - Z.pos (digits2_pos p)) with (Z.pos k) by lia. cbn [Z.to_N Pos.shiftl].
    apply binary_round_aux_exact; [|lia].
    rewrite digits2_pos_iter_xO. lia.
Qed.

Lemma mantissa_value (p : positive) :
  Z.pos (digits2_pos p) <= 53 ->
  Z.pos (mantissa p) = Z.pos p * 2 ^ (53 - Z.pos (digits2_pos p)).
Proof.
  intros Hd. unfold mantissa.
  destruct (53 - Z.pos (digits2_pos p)) as [|k|k] eqn:Hk; [| |lia].
  - cbn. lia.
  - cbn [Z.to_N Pos.shiftl]. change (Pos.iter xO p k) with (shift_pos k p).
    rewrite shift_pos_correct. change (Z.pow_pos 2 k) with (2 ^ Z.pos k). lia.
Qed.

Lemma digits2_pos_le_53 (p : positive) :
  Z.pos p < 2 ^ 53 -> Z.pos (digits2_pos p) <= 53.
Proof.
  intros Hp. pose proof (digits2_pos_bounds p) as [Hlo _].
  assert (2 ^ (Z.pos (digits2_pos p) - 1) < 2 ^ 53) as H by lia.
  apply Z.pow_lt_mono_r_iff in H; lia.
Qed.

Lemma double_lt_of_pos (p q : positive) :
  Z.pos p < 2 ^ 53 -> Z.pos q < 2 ^ 53 ->
  SFltb (double_of_Z (Z.pos p)) (double_of_Z (Z.pos q)) = (Z.pos p <? Z.pos q).
Proof.
  intros Hp Hq.
  pose proof (digits2_pos_le_53 p Hp) as Dp. pose proof (digits2_pos_le_53 q Hq) as Dq.
  rewrite !double_of_Z_exact by assumption.
  unfold SFltb, SFcompare.
  pose proof (digits2_pos_bounds p) as [Lp Up].
  pose proof (digits2_pos_bounds q) as [Lq Uq].
  destruct (Z.compare_spec (Z.pos (digits2_pos p) - 53) (Z.pos (digits2_pos q) - 53))
    as [He|He|He].
  - change (Pos.compare_cont Eq (mantissa p) (mantissa q))
      with (Z.pos (mantissa p) ?= Z.pos (mantissa q)).
    rewrite !mantissa_value by assumption.
    replace (Z.pos (digits2_pos q)) with (Z.pos (digits2_pos p)) by lia.
    assert (0 < 2 ^ (53 - Z.pos (digits2_pos p))) as Hk
      by (apply Z.pow_pos_nonneg; lia).
    destruct (Z.compare_spec (Z.pos p * 2 ^ (53 - Z.pos (digits2_pos p)))
                             (Z.pos q * 2 ^ (53 - Z.pos (digits2_pos p))));
      symmetry; [apply Z.ltb_ge|apply Z.ltb_lt|apply Z.ltb_ge]; nia.
  - assert (2 ^ Z.pos (digits2_pos p) <= 2 ^ (Z.pos (digits2_pos q) - 1))
      by (apply Z.pow_le_mono_r; lia).
    symmetry. apply Z.ltb_lt. lia.
  - assert (2 ^ Z.pos (digits2_pos q) <= 2 ^ (Z.pos (digits2_pos p) - 1))
      by (apply Z.pow_le_mono_r; lia).
    symmetry. apply Z.ltb_ge. lia.
Qed.

Lemma double_lt_of_Z (x y : Z) :
  0 <= x < 2 ^ 53 -> 0 <= y < 2 ^ 53 ->
  SFltb (double_of_Z x) (double_of_Z y) = (x <? y).
Proof.
  intros Hx Hy. destruct x as [|p|p], y as [|q|q]; try lia; try reflexivity.
  - rewrite double_of_Z_exact by (apply digits2_pos_le_53; lia). reflexivity.
  - rewrite double_of_Z_exact by (apply digits2_pos_le_53; lia). reflexivity.
  - apply double_lt_of_pos; lia.
Qed.

Lemma binary_round_aux_halve52 (s : bool) (m : positive) (e : Z) :
  Z.pos (digits2_pos m) = 53 -> -1074 <= e + 52 <= 971 ->
  binary_round_aux 53 1024 s (Z.pos (4503599627370496 * m)) e loc_Exact
  = S754_finite s m (e + 52).
Proof.
  intros Hd He. unfold binary_round_aux, shr_fexp. cbn [Zdigits2 shr_record_of_loc].
  change (4503599627370496 * m)%positive with (Pos.iter xO m 52).
  rewrite digits2_pos_iter_xO, Hd.
  replace (fexp 53 1024 (53 + 52 + e)) with (e + 52) by (unfold fexp, emin; lia).
  replace (e + 52 - e) with 52 by lia.
  unfold shr at 1.
  change (iter_pos shr_1 52
            {| shr_m := Z.pos (Pos.iter xO m 52); shr_r := false; shr_s := false |})
    with {| shr_m := Z.pos m; shr_r := false; shr_s := false |}.
  cbn [shr_m loc_of_shr_record round_nearest_even Zdigits2].
  rewrite Hd.
  replace (fexp 53 1024 (53 + (e + 52))) with (e + 52) by (unfold fexp, emin; lia).
  rewrite Z.sub_diag. cbn [shr shr_m].
  replace (e + 52 <=? 1024 - 53) with true by (symmetry; apply Z.leb_le; lia).
  reflexivity.
Qed.

Lemma mantissa_double (p : positive) :
  Z.pos (digits2_pos p) < 53 -> mantissa p~0 = mantissa p.
Proof.
  intros Hd. apply Pos2Z.inj_pos. rewrite !mantissa_value by (cbn [digits2_pos]; lia).
  cbn [digits2_pos]. rewrite Pos2Z.inj_succ, Pos2Z.inj_xO.
  replace (53 - Z.pos (digits2_pos p)) with (Z.succ (53 - Z.succ (Z.pos (digits2_pos p)))) by lia.
  rewrite Z.pow_succ_r by lia. lia.
Qed.

(** Doubling is exact. *)
Lemma double_mul_2 (r : Z) :
  0 <= r < 2 ^ 52 ->
  double_mul (double_of_Z 2) (double_of_Z r) = double_of_Z (2 * r).
Proof.
  intros Hr. destruct r as [|p|p]; [reflexivity| |lia].
  assert (Z.pos (digits2_pos p) < 53) as Hd.
  { pose proof (digits2_pos_bounds p) as [Hlo _].
    assert (2 ^ (Z.pos (digits2_pos p) - 1) < 2 ^ 52) as H by lia.
    apply Z.pow_lt_mono_r_iff in H; lia. }
  change (2 * Z.pos p) with (Z.pos p~0).
  rewrite (double_of_Z_exact p) by lia.
  rewrite (double_of_Z_exact p~0) by (cbn [digits2_pos]; lia).
  rewrite mantissa_double by assumption.
  change (double_of_Z 2) with (S754_finite false 4503599627370496 (-51)).
  unfold double_mul, SFmul. cbn [xorb].
  rewrite binary_round_aux_halve52.
  - f_equal. cbn [digits2_pos]. lia.
  - unfold mantissa.
    destruct (53 - Z.pos (digits2_pos p)) as [|k|k] eqn:Hk; try lia.
    cbn [Z.to_N Pos.shiftl]. rewrite digits2_pos_iter_xO. lia.
  - lia.
Qed.

Lemma double_gt_2rate (cnt r : Z) :
  0 <= cnt < 2 ^ 53 -> 0 <= r < 2 ^ 52 ->
  double_gt (double_of_Z cnt) (double_mul (double_of_Z 2) (double_of_Z r))
  = (2 * r <? cnt).
Proof.
  intros Hc Hr. unfold double_gt. rewrite double_mul_2 by assumption.
  apply double_lt_of_Z; lia.
Qed.

(** ** The request flag *)

Lemma step_request_sent (s : host_step) (w w' : World) :
  step s w = Some (tt, w') ->
  request_sent (instance w) = true -> request_sent (instance w') = true.
Proof.
  destruct s as [port d|n|a q]; cbn [step].
  - unfold connect_port, modify_self. intros [= <-]. cbn [instance with_instance].
    destruct port as [|[[]|[]|]|]; auto.
  - intros H Hs. apply run_effect in H.
    destruct (control (instance w) =? NULL).
    + now subst w'.
    + destruct H as (cs & _ & _ & ->). cbn [instance].
      now rewrite request_sent_after_cycle, Hs.
  - unfold host_writes. now intros [= <-].
Qed.

Lemma step_the_request (s : host_step) (w w' : World) :
  step s w = Some (tt, w') ->
  the_request (instance w') = the_request (instance w).
Proof.
  destruct s as [port d|n|a q]; cbn [step].
  - unfold connect_port, modify_self. intros [= <-]. cbn [instance with_instance].
    destruct port as [|[[]|[]|]|]; auto.
  - intros H. apply run_effect in H.
    destruct (control (instance w) =? NULL).
    + now subst w'.
    + destruct H as (cs & _ & _ & ->). apply the_request_after_cycle.
  - unfold host_writes. now intros [= <-].
Qed.

(** * The claims *)

(** C1. The host's value-request capability is invoked at most once per
    instance.  [instantiate] creates [request_sent] false; in every world
    the host can reach, the calls made so far hold at most one [request],
    and none while the flag is false; no step of the host ([connect_port],
    [run], a write to its own memory) takes the flag from true back to
    false or adds a [request] once it is true; and a step that adds a
    [request] is one that takes the flag from false to true. *)
Theorem request_issued_at_most_once
    (urid_map : pointer -> string -> LV2_URID) (w : World) :
  reachable urid_map w ->
  (forall descriptor rate bundle_path host_features cs self,
     instantiate urid_map descriptor rate bundle_path host_features = (cs, Some self) ->
     request_sent self = false)
  /\ (List.length (requests (calls w)) <= 1)%nat
  /\ (request_sent (instance w) = false -> requests (calls w) = [])
  /\ (forall s w', step s w = Some (tt, w') ->
        (request_sent (instance w) = true ->
           request_sent (instance w') = true
           /\ requests (calls w') = requests (calls w))
        /\ (requests (calls w') <> requests (calls w) ->
           request_sent (instance w) = false
           /\ request_sent (instance w') = true)).
Proof.
  intros Hw. pose proof (reachable_requested_once _ _ Hw) as Honce.
  unfold requested_once in Honce.
  split; [|split; [|split]].
  - intros d rate bp hf cs self Hinst.
    now apply instantiate_configured in Hinst.
  - rewrite Honce. destruct (request_sent (instance w)); cbn; lia.
  - intros Hs. now rewrite Honce, Hs.
  - intros s w' Hstep.
    pose proof (reachable_requested_once _ _ (reach_step _ _ _ _ Hw Hstep)) as Honce'.
    unfold requested_once in Honce'.
    assert (Hkeep : request_sent (instance w) = true ->
                    request_sent (instance w') = true
                    /\ requests (calls w') = requests (calls w)).
    { intros Hs. pose proof (step_request_sent _ _ _ Hstep Hs) as Hs'.
      split; [assumption|].
      now rewrite Honce, Honce', Hs, Hs', (step_the_request _ _ _ Hstep). }
    split; [exact Hkeep|].
    intros Hdiff.
    destruct (request_sent (instance w)) eqn:Hs.
    + exfalso. apply Hdiff. now apply Hkeep.
    + split; [reflexivity|].
      destruct (request_sent (instance w')) eqn:Hs'; [reflexivity|].
      exfalso. apply Hdiff. now rewrite Honce, Honce'.
Qed.

Lemma reachable_steps urid_map (l : list host_step) (w w' : World) :
  reachable urid_map w -> steps l w = Some (tt, w') -> reachable urid_map w'.
Proof.
  revert w. induction l as [|s l IH]; intros w Hw; cbn [steps].
  - now intros [= <-].
  - unfold bind. destruct (step s w) as [[[] w1]|] eqn:Hs; [|discriminate].
    apply IH. eapply reach_step; eauto.
Qed.

Lemma reachable_world0 : reachable Demo.urid_map Demo.world0.
Proof.
  exact (reach_instantiate Demo.urid_map 0 Demo.rate_48000 EmptyString
           Demo.host_features Demo.self0 Demo.ramp Demo.events eq_refl).
Qed.

Lemma steps_after (l : list host_step) (w : World) :
  Demo.defined (steps l w) = true -> steps l w = Some (tt, Demo.after l w).
Proof.
  unfold Demo.defined, Demo.after.
  destruct (steps l w) as [[[] w']|]; [reflexivity|discriminate].
Qed.

Lemma request_issued_at_most_once_witness :
  reachable Demo.urid_map (Demo.after Demo.session Demo.world0)
  /\ (List.length (requests (calls (Demo.after Demo.session Demo.world0))) <= 1)%nat.
Proof.
  assert (R : reachable Demo.urid_map (Demo.after Demo.session Demo.world0)).
  { apply (reachable_steps _ Demo.session Demo.world0); [apply reachable_world0|].
    apply steps_after. vm_compute. reflexivity. }
  split; [exact R|].
  exact (proj1 (proj2 (request_issued_at_most_once Demo.urid_map _ R))).
Defined.

(** ** Cycles run back to back *)

Lemma cycle_ok_after_cycle (w : World) (n m : Z) (cs : list HostCall) :
  cycle_ok {| instance := after_cycle n (instance w); audio := forwarded w n;
              sequences := sequences w; calls := cs |} m
  = cycle_ok w m.
Proof.
  unfold cycle_ok, buffers_apart, after_cycle, after_request.
  cbn [instance sequences]. now destruct (request_due (instance w)).
Qed.

(** A cycle with the control port connected, for the proofs about runs of
    cycles. *)
Lemma run_connected (n : Z) (w : World) :
  cycle_ok w n = true ->
  control (instance w) <> NULL ->
  exists cs,
    requests cs = []
    /\ run n w
       = Some (tt, {| instance := after_cycle n (instance w);
                      audio := forwarded w n;
                      sequences := sequences w;
                      calls := calls w ++ cs ++ request_calls (instance w) |}).
Proof.
  intros Hok Hc. destruct (run_defined n w Hok) as (w' & Hrun).
  pose proof (run_effect n w w' Hrun) as H.
  apply Z.eqb_neq in Hc. rewrite Hc in H.
  destruct H as (cs & Hreq & _ & ->). now exists cs.
Qed.

(** A connected cycle on readable input, in full: the decoder runs on the
    patch:Set objects of the control sequence, in stored order, after the
    audio was forwarded; the calls of the cycle are those the decoder has
    made by then, followed by those of the request step. *)
Lemma run_dispatches (n : Z) (w : World) :
  cycle_ok w n = true ->
  control (instance w) <> NULL ->
  exists w2,
    decode_each
      (set_messages (uris (instance w)) (sequences w (control (instance w))))
      (with_audio (forwarded w n) w) = Some (tt, w2)
    /\ run n w
       = Some (tt, {| instance := after_cycle n (instance w);
                      audio := forwarded w n;
                      sequences := sequences w;
                      calls := calls w2 ++ request_calls (instance w) |}).
Proof.
  intros Hok Hc. destruct (run_connected n w Hok Hc) as (cs & _ & Hrun).
  assert (Hc' : (control (instance w) =? NULL) = false) by now apply Z.eqb_neq.
  destruct (run_loop n w _ Hrun Hc') as (w2 & Hloop & Hcalls).
  exists w2. split.
  - rewrite <- Hloop. symmetry.
    apply (foreach_decode_each (sequences w (control (instance w)))
             (with_audio (forwarded w n) w)).
    cbn [instance with_audio].
    unfold cycle_ok in Hok. apply andb_true_iff in Hok as [_ Hseq].
    rewrite Hc' in Hseq. cbn [orb] in Hseq.
    rewrite forallb_forall in Hseq. apply forallb_forall.
    intros ev Hev. apply readable_laid_out. now apply Hseq.
  - rewrite Hrun. cbn [calls] in Hcalls. now rewrite Hcalls.
Qed.

Lemma requests_during_cycle (w : World) (cs : list HostCall) :
  requests cs = [] ->
  (List.length (requests (calls w ++ cs ++ request_calls (instance w)))
   - List.length (requests (calls w)))%nat
  = if request_due (instance w) then 1%nat else 0%nat.
Proof.
  intros Hreq. rewrite !requests_app, Hreq, length_app. cbn [app].
  unfold request_calls. destruct (request_due (instance w)); cbn; lia.
Qed.

Lemma requests_per_cycle_sent (ns : list Z) (w : World) :
  request_sent (instance w) = true ->
  control (instance w) <> NULL ->
  Forall (fun n => cycle_ok w n = true) ns ->
  requests_per_cycle ns w = Some (repeat 0%nat (List.length ns)).
Proof.
  revert w. induction ns as [|n ns IH]; intros w Hs Hc Hok; [reflexivity|].
  inversion Hok as [|? ? Hn Hns]; subst.
  destruct (run_connected n w Hn Hc) as (cs & Hreq & Hrun).
  cbn [requests_per_cycle]. rewrite Hrun. cbn [calls].
  rewrite (requests_during_cycle w cs Hreq).
  unfold request_due at 1. rewrite Hs. cbn [negb andb].
  rewrite IH; [reflexivity| | |].
  - cbn [instance]. now rewrite request_sent_after_cycle, Hs.
  - cbn [instance]. unfold after_cycle, after_request.
    now destruct (request_due (instance w)).
  - eapply Forall_impl; [|exact Hns]. intros m Hm.
    now rewrite cycle_ok_after_cycle.
Qed.

Lemma past_two_seconds_integer (self : ReqVal) (r : Z) :
  sample_rate self = double_of_Z r ->
  0 <= r < 2 ^ 52 ->
  0 <= sample_cnt self < 2 ^ 53 ->
  past_two_seconds self = (2 * r <? sample_cnt self).
Proof.
  intros Hrate Hr Hcnt. unfold past_two_seconds. rewrite Hrate.
  now apply double_gt_2rate.
Qed.

(** C2, as amended.  With an integral sample rate [r] below 2^52, the
    control port connected and the counter staying below 2^53, the request
    is made during the first cycle that begins with the samples counted in
    the earlier cycles already above [2 * r]: the cycle after the one that
    crosses the limit.  No request is made before and none after. *)
Theorem request_on_cycle_after_crossing (w : World) (r : Z) (ns : list Z) :
  sample_rate (instance w) = double_of_Z r ->
  0 <= r < 2 ^ 52 ->
  request_sent (instance w) = false ->
  control (instance w) <> NULL ->
  Forall (fun n => 0 <= n /\ cycle_ok w n = true) ns ->
  0 <= sample_cnt (instance w) ->
  sample_cnt (instance w) + total_samples ns < 2 ^ 53 ->
  requests_per_cycle ns w
  = Some (after_crossing_cycle (2 * r) (sample_cnt (instance w)) ns).
Proof.
  revert w. induction ns as [|n ns IH]; intros w Hrate Hr Hs Hc Hok Hlo Hhi;
    [reflexivity|].
  inversion Hok as [|? ? [Hn0 Hn] Hns]; subst.
  cbn [total_samples fold_right] in Hhi. fold (total_samples ns) in Hhi.
  assert (0 <= total_samples ns) as Htot.
  { clear - Hns. induction Hns as [|m ms [Hm _] _ IHm]; cbn; [lia|].
    fold (total_samples ms). lia. }
  destruct (run_connected n w Hn Hc) as (cs & Hreq & Hrun).
  cbn [requests_per_cycle after_crossing_cycle]. rewrite Hrun. cbn [calls].
  rewrite (requests_during_cycle w cs Hreq).
  unfold request_due at 1. rewrite Hs. cbn [negb andb].
  rewrite (past_two_seconds_integer _ r Hrate Hr) by lia.
  assert (Hoks : Forall (fun m => cycle_ok
            {| instance := after_cycle n (instance w); audio := forwarded w n;
               sequences := sequences w;
               calls := calls w ++ cs ++ request_calls (instance w) |} m = true) ns).
  { eapply Forall_impl; [|exact Hns]. intros m [_ Hm].
    now rewrite cycle_ok_after_cycle. }
  assert (Hc' : control (after_cycle n (instance w)) <> NULL).
  { unfold after_cycle, after_request. now destruct (request_due (instance w)). }
  destruct (2 * r <? sample_cnt (instance w)) eqn:Hpast.
  - rewrite requests_per_cycle_sent; [reflexivity| |assumption|assumption].
    cbn [instance]. rewrite request_sent_after_cycle, Hs.
    rewrite (past_two_seconds_integer _ r Hrate Hr) by lia. exact Hpast.
  - assert (Hcnt : sample_cnt (after_cycle n (instance w)) = sample_cnt (instance w) + n).
    { unfold after_cycle, after_request, uint64.
      destruct (request_due (instance w)); cbn; apply Z.mod_small;
        assert (2 ^ 53 < 2 ^ 64) by (apply Z.pow_lt_mono_r; lia); lia. }
    rewrite IH; cbn [instance].
    + now rewrite Hcnt.
    + unfold after_cycle, after_request.
      now destruct (request_due (instance w)).
    + assumption.
    + rewrite request_sent_after_cycle, Hs.
      rewrite (past_two_seconds_integer _ r Hrate Hr) by lia. exact Hpast.
    + assumption.
    + eapply Forall_impl; [|exact Hns]. intros m [Hm0 Hm].
      split; [assumption|]. now rewrite cycle_ok_after_cycle.
    + lia.
    + lia.
Qed.

Lemma request_on_cycle_after_crossing_witness :
  sample_rate (instance Demo.quiet1) = double_of_Z 48000
  /\ request_sent (instance Demo.quiet1) = false
  /\ control (instance Demo.quiet1) <> NULL
  /\ requests_per_cycle [48000; 48000; 1; 64] Demo.quiet1
     = Some [0; 0; 0; 1]%nat.
Proof.
  split; [reflexivity|]. split; [reflexivity|]. split; [discriminate|].
  apply (request_on_cycle_after_crossing Demo.quiet1 48000 [48000; 48000; 1; 64]).
  - reflexivity.
  - cbn; lia.
  - reflexivity.
  - discriminate.
  - repeat constructor; try discriminate; vm_compute; reflexivity.
  - cbn; lia.
  - cbn; lia.
Defined.

(** C2, as the spec states it, fails: at 48 kHz, without control events,
    the cycles of 48000, 48000 and 1 frames deliver 96001 samples, and the
    third one crosses the limit of 96000; the request is not made during
    it but during the cycle that follows. *)
Lemma request_not_on_crossing_cycle :
  requests_per_cycle [48000; 48000; 1; 64] Demo.quiet1 = Some [0; 0; 0; 1]%nat
  /\ on_crossing_cycle (2 * 48000) 0 [48000; 48000; 1; 64] = [0; 0; 1; 0]%nat
  /\ requests_per_cycle [48000; 48000; 1; 64] Demo.quiet1
     <> Some (on_crossing_cycle (2 * 48000) 0 [48000; 48000; 1; 64]).
Proof.
  assert (requests_per_cycle [48000; 48000; 1; 64] Demo.quiet1
          = Some [0; 0; 0; 1]%nat) as H by (vm_compute; reflexivity).
  split; [exact H|]. split; [reflexivity|].
  rewrite H. discriminate.
Qed.

(** ** The sample counter *)

(** C5, as amended.  A cycle that finds the control port connected adds
    its frame count to the counter, once and in [uint64_t] arithmetic; a
    cycle that finds it null returns right after forwarding the audio and
    leaves the whole instance, the counter included, as it was. *)
Theorem sample_cnt_after_cycle (w : World) (n_samples : Z) :
  cycle_ok w n_samples = true ->
  0 <= n_samples <= UINT32_MAX ->
  0 <= sample_cnt (instance w) < 2 ^ 64 ->
  exists w',
    run n_samples w = Some (tt, w')
    /\ (control (instance w) <> NULL ->
          sample_cnt (instance w')
          = (sample_cnt (instance w) + n_samples) mod 2 ^ 64
          /\ (sample_cnt (instance w) + n_samples < 2 ^ 64 ->
                sample_cnt (instance w') = sample_cnt (instance w) + n_samples))
    /\ (control (instance w) = NULL -> instance w' = instance w).
Proof.
  intros Hok Hn Hcnt. destruct (run_defined n_samples w Hok) as (w' & Hrun).
  exists w'. split; [assumption|].
  pose proof (run_effect n_samples w w' Hrun) as H.
  split.
  - intros Hc. apply Z.eqb_neq in Hc. rewrite Hc in H.
    destruct H as (cs & _ & _ & ->). cbn [instance].
    assert (sample_cnt (after_cycle n_samples (instance w))
            = (sample_cnt (instance w) + n_samples) mod 2 ^ 64) as ->.
    { unfold after_cycle, after_request, uint64.
      now destruct (request_due (instance w)). }
    split; [reflexivity|]. intros Hno. apply Z.mod_small. lia.
  - intros Hc. rewrite Hc in H. cbn in H. now subst w'.
Qed.

Lemma sample_cnt_after_cycle_witness :
  cycle_ok (Demo.after Demo.session Demo.world0) 64 = true
  /\ exists w',
       run 64 (Demo.after Demo.session Demo.world0) = Some (tt, w')
       /\ sample_cnt (instance w')
          = sample_cnt (instance (Demo.after Demo.session Demo.world0)) + 64.
Proof.
  split; [vm_compute; reflexivity|].
  destruct (sample_cnt_after_cycle (Demo.after Demo.session Demo.world0) 64)
    as (w' & Hrun & Hadd & _).
  - vm_compute; reflexivity.
  - unfold UINT32_MAX. lia.
  - vm_compute. split; [discriminate|reflexivity].
  - exists w'. split; [exact Hrun|].
    apply Hadd; [vm_compute; discriminate|vm_compute; reflexivity].
Defined.

(** C5, as the spec states it, fails on a cycle without a control
    sequence: on the instance just created, whose ports are all null, a
    cycle of 64 frames is defined and leaves the world as it was, so the
    counter is not the old one plus 64. *)
Lemma counter_stays_without_control :
  control (instance Demo.world0) = NULL
  /\ run 64 Demo.world0 = Some (tt, Demo.world0)
  /\ sample_cnt (instance Demo.world0)
     <> uint64 (sample_cnt (instance Demo.world0) + 64).
Proof.
  split; [reflexivity|]. split; [reflexivity|]. vm_compute. discriminate.
Qed.

(** ** The decoder on well-formed and on malformed messages *)




(** C4. On a patch:Set object with one of the five defects,
    [parse_property] is defined and returns false; its only effect is one
    error message, the one of the defect, sent to the log: instance, audio
    memory and sequences are as before.  When the object sits in the
    control sequence, the loop goes on with the events behind it. *)
Theorem malformed_set_rejected (obj : LV2_Atom_Object) (w : World)
    (e : decode_error) :
  malformed (uris (instance w)) obj e ->
  let w' :=
    with_calls
      (calls w ++ [lv2_log_error (logger (instance w)) (error_message e) []]) w in
  parse_property obj w = Some (false, w')
  /\ forall frames rest,
       is_set_message (uris (instance w)) (event_object frames obj) = true ->
       LV2_ATOM_SEQUENCE_FOREACH (event_object frames obj :: rest) control_event w
       = LV2_ATOM_SEQUENCE_FOREACH rest control_event w'.
Proof.
  intros Hbad w'.
  assert (Hparse : parse_property obj w = Some (false, w')).
  { subst w'. unfold parse_property, bind at 1. unfold get_self at 1.
    destruct Hbad as [Hp|property Hp Hty|property Hp Hty Hv
                      |property val Hp Hty Hv Hid Hbody Htv
                      |property val id Hp Hty Hv Hid Hbody Hne];
      rewrite Hp; try reflexivity.
    - apply Z.eqb_neq in Hty. rewrite Hty. reflexivity.
    - rewrite Hty, Z.eqb_refl. cbn [negb]. rewrite Hv. reflexivity.
    - rewrite Hty, Z.eqb_refl. cbn [negb]. rewrite Hv.
      unfold bind at 1. rewrite (URID_body_payload _ _ _ Hid Hbody).
      rewrite Z.eqb_refl. apply Z.eqb_neq in Htv. rewrite Htv. reflexivity.
    - rewrite Hty, Z.eqb_refl. cbn [negb]. rewrite Hv.
      unfold bind at 1. rewrite (URID_body_payload _ _ _ Hid Hbody).
      apply Z.eqb_neq in Hne. rewrite Hne. reflexivity. }
  split; [exact Hparse|].
  intros frames rest Hset. cbn [LV2_ATOM_SEQUENCE_FOREACH].
  unfold bind at 1. rewrite (control_event_set _ _ _ Hset).
  unfold bind at 1. rewrite Hparse. reflexivity.
Qed.

Lemma malformed_set_rejected_witness :
  malformed (uris (instance Demo.world1)) Demo.set_nothing NoValue
  /\ parse_property Demo.set_nothing Demo.world1
     = Some (false,
             with_calls
               (calls Demo.world1 ++ [log_vprintf 2000 11 msg_no_value []])
               Demo.world1).
Proof.
  assert (H : malformed (uris (instance Demo.world1)) Demo.set_nothing NoValue).
  { eapply malformed_NoValue; reflexivity. }
  split; [exact H|].
  exact (proj1 (malformed_set_rejected Demo.set_nothing Demo.world1 NoValue H)).
Defined.

(** ** The dispatcher *)

(** C6. In a cycle the loop over the control sequence is the decoder run
    on the events that are objects typed Object with the object type
    patch:Set, all of them, one after the other in stored order; an event
    of any other kind has no effect at all; the loop reaches the end of the
    sequence, whatever the decoder makes of a message, and has then sent
    one report per patch:Set object; with a null control port [run] only
    forwards the audio; and with the control port connected [run] is this
    loop on the sequence the port points to: its calls are the earlier
    ones, then those of the decoder on the patch:Set objects of that
    sequence, then those of the request step. *)
Theorem events_dispatched_in_order (w : World) :
  let u := uris (instance w) in
  (forall seq,
     forallb (laid_out u) seq = true ->
     LV2_ATOM_SEQUENCE_FOREACH seq control_event w
     = decode_each (set_messages u seq) w)
  /\ (forall ev,
        laid_out u ev = true -> is_set_message u ev = false ->
        control_event ev w = Some (tt, w))
  /\ (forall seq,
        forallb (readable_event u) seq = true ->
        exists cs,
          LV2_ATOM_SEQUENCE_FOREACH seq control_event w
          = Some (tt, with_calls (calls w ++ cs) w)
          /\ List.length cs = List.length (set_messages u seq))
  /\ (forall n_samples,
        cycle_ok w n_samples = true ->
        control (instance w) = NULL ->
        run n_samples w = Some (tt, with_audio (forwarded w n_samples) w))
  /\ (forall n_samples,
        cycle_ok w n_samples = true ->
        control (instance w) <> NULL ->
        exists w2,
          decode_each (set_messages u (sequences w (control (instance w))))
                      (with_audio (forwarded w n_samples) w) = Some (tt, w2)
          /\ run n_samples w
             = Some (tt, {| instance := after_cycle n_samples (instance w);
                            audio := forwarded w n_samples;
                            sequences := sequences w;
                            calls := calls w2 ++ request_calls (instance w) |})).
Proof.
  intros u. subst u. split; [|split; [|split; [|split]]].
  5:{ intros n Hok Hc. exact (run_dispatches n w Hok Hc). }
  - intros seq. apply foreach_decode_each.
  - intros ev. apply control_event_skip.
  - intros seq Hall. destruct (foreach_defined seq w Hall) as (w' & Hloop).
    destruct (foreach_effect seq w w' Hloop) as (cs & _ & Hlen & ->).
    now exists cs.
  - intros n Hok Hc. destruct (run_defined n w Hok) as (w' & Hrun).
    pose proof (run_effect n w w' Hrun) as H. rewrite Hc in H. cbn in H.
    now subst w'.
Qed.

Lemma events_dispatched_in_order_witness :
  forallb (laid_out (uris (instance Demo.world1))) (Demo.events 500) = true
  /\ set_messages (uris (instance Demo.world1)) (Demo.events 500)
     = [Demo.set_nothing; Demo.set_bool true]
  /\ LV2_ATOM_SEQUENCE_FOREACH (Demo.events 500) control_event Demo.world1
     = decode_each [Demo.set_nothing; Demo.set_bool true] Demo.world1
  /\ exists w',
       run 64 Demo.world1 = Some (tt, w')
       /\ calls w' = [ log_vprintf 2000 11 msg_no_value [];
                       log_vprintf 2000 12 msg_received [1] ].
Proof.
  split; [reflexivity|]. split; [reflexivity|]. split.
  - exact (proj1 (events_dispatched_in_order Demo.world1) (Demo.events 500) eq_refl).
  - destruct (proj2 (proj2 (proj2 (proj2 (events_dispatched_in_order Demo.world1))))
                64) as (w2 & Hdec & Hrun).
    + vm_compute. reflexivity.
    + discriminate.
    + eexists. split; [exact Hrun|]. cbn [calls].
      assert (E : decode_each
                    (set_messages (uris (instance Demo.world1))
                       (sequences Demo.world1 (control (instance Demo.world1))))
                    (with_audio (forwarded Demo.world1 64) Demo.world1)
                  = Some (tt, with_calls
                                [ log_vprintf 2000 11 msg_no_value [];
                                  log_vprintf 2000 12 msg_received [1] ]
                                (with_audio (forwarded Demo.world1 64) Demo.world1)))
        by reflexivity.
      rewrite E in Hdec. injection Hdec as <-. reflexivity.
Defined.

(** ** Instantiation *)

Lemma scan_features (fs : list LV2_Feature) (m l r : pointer) :
  fold_left scan_feature fs (m, l, r)
  = (feature_data LV2_URID__map fs m,
     feature_data LV2_LOG__log fs l,
     feature_data LV2_UI__requestValue fs r).
Proof.
  unfold feature_data.
  revert m l r. induction fs as [|f fs IH]; intros m l r; [reflexivity|].
  cbn [fold_left].
  change (scan_feature (m, l, r) f)
    with (if String.eqb (URI f) LV2_URID__map then (data f, l, r)
          else if String.eqb (URI f) LV2_LOG__log then (m, data f, r)
          else if String.eqb (URI f) LV2_UI__requestValue then (m, l, data f)
          else (m, l, r)).
  destruct (String.eqb_spec (URI f) LV2_URID__map) as [E|_].
  { rewrite IH, E. reflexivity. }
  destruct (String.eqb_spec (URI f) LV2_LOG__log) as [E|_].
  { rewrite IH, E. reflexivity. }
  destruct (String.eqb_spec (URI f) LV2_UI__requestValue) as [E|_];
    now rewrite IH.
Qed.

Lemma feature_data_omitted (uri : string) (fs : list LV2_Feature) (init : pointer) :
  omitted uri fs -> feature_data uri fs init = init.
Proof.
  unfold omitted, feature_data. revert init.
  induction fs as [|f fs IH]; intros init Hom; [reflexivity|].
  cbn [fold_left].
  destruct (String.eqb_spec (URI f) uri) as [E|_].
  - exfalso. apply (Hom f); [now left|assumption].
  - apply IH. intros g Hg. apply Hom. now right.
Qed.

Lemma feature_data_supplied (uri : string) (fs : list LV2_Feature) (init : pointer) :
  (forall f, In f fs -> URI f = uri -> data f <> NULL) ->
  init <> NULL \/ (exists f, In f fs /\ URI f = uri) ->
  feature_data uri fs init <> NULL.
Proof.
  unfold feature_data. revert init.
  induction fs as [|f fs IH]; intros init Hall Hsome; cbn [fold_left].
  - destruct Hsome as [H|(f & [] & _)]. exact H.
  - apply IH; [intros g Hg; apply Hall; now right|].
    destruct (String.eqb_spec (URI f) uri) as [E|NE].
    + left. apply Hall; [now left|assumption].
    + destruct Hsome as [H|(g & [->|Hg] & Eg)]; [now left|congruence|].
      right. now exists g.
Qed.

(** C7. [instantiate] returns no instance when the host leaves out
    urid:map or ui:requestValue, and returns one, without a call into the
    host, when it passes both with data; log:log plays no part in this:
    without it every report of the logger goes to [stderr], the report of
    a failed instantiation included. *)
Theorem instantiate_needs_map_and_request
    (urid_map : pointer -> string -> LV2_URID) (descriptor : pointer)
    (rate : double) (bundle_path : string) (fs : list LV2_Feature) :
  (omitted LV2_URID__map fs \/ omitted LV2_UI__requestValue fs ->
     snd (instantiate urid_map descriptor rate bundle_path fs) = None)
  /\ (supplied LV2_URID__map fs -> supplied LV2_UI__requestValue fs ->
        exists self,
          instantiate urid_map descriptor rate bundle_path fs = ([], Some self)
          /\ (omitted LV2_LOG__log fs ->
                forall fmt args,
                  lv2_log_error (logger self) fmt args = stderr_vfprintf fmt args))
  /\ (omitted LV2_LOG__log fs ->
        forall c,
          In c (fst (instantiate urid_map descriptor rate bundle_path fs)) ->
          exists fmt, c = stderr_vfprintf fmt []).
Proof.
  unfold instantiate. rewrite scan_features.
  split; [|split].
  - intros [Hom|Hom].
    + rewrite (feature_data_omitted _ _ _ Hom).
      destruct (feature_data LV2_UI__requestValue fs NULL =? NULL); reflexivity.
    + rewrite (feature_data_omitted _ _ _ Hom). reflexivity.
  - intros [Hm1 Hm2] [Hr1 Hr2].
    pose proof (feature_data_supplied _ _ NULL Hm2 (or_intror Hm1)) as Hm.
    pose proof (feature_data_supplied _ _ NULL Hr2 (or_intror Hr1)) as Hr.
    apply Z.eqb_neq in Hm, Hr. rewrite Hm, Hr.
    eexists. split; [reflexivity|].
    intros Hlog fmt args. cbn [logger].
    rewrite (feature_data_omitted _ _ _ Hlog).
    unfold lv2_log_error, lv2_log_vprintf, lv2_log_logger_init.
    rewrite Hm. reflexivity.
  - intros Hlog c. rewrite (feature_data_omitted _ _ _ Hlog).
    unfold lv2_log_error, lv2_log_vprintf, lv2_log_logger_init.
    destruct (feature_data LV2_UI__requestValue fs NULL =? NULL).
    + destruct (negb (feature_data LV2_URID__map fs NULL =? NULL));
        cbn; intros [<-|[]]; eauto.
    + destruct (feature_data LV2_URID__map fs NULL =? NULL) eqn:Hm;
        cbn; [|intros []].
      intros [<-|[]]; eauto.
Qed.

Lemma instantiate_needs_map_and_request_witness :
  supplied LV2_URID__map [Demo.map_feature; Demo.request_feature]
  /\ supplied LV2_UI__requestValue [Demo.map_feature; Demo.request_feature]
  /\ omitted LV2_LOG__log [Demo.map_feature; Demo.request_feature]
  /\ exists self,
       instantiate Demo.urid_map 0 Demo.rate_48000 EmptyString
         [Demo.map_feature; Demo.request_feature] = ([], Some self)
       /\ lv2_log_error (logger self) msg_no_body [] = stderr_vfprintf msg_no_body [].
Proof.
  assert (Hm : supplied LV2_URID__map [Demo.map_feature; Demo.request_feature]).
  { split; [exists Demo.map_feature; split; [now left|reflexivity]|].
    intros f [<-|[<-|[]]]; discriminate. }
  assert (Hr : supplied LV2_UI__requestValue [Demo.map_feature; Demo.request_feature]).
  { split; [exists Demo.request_feature; split; [right; now left|reflexivity]|].
    intros f [<-|[<-|[]]]; discriminate. }
  assert (Hl : omitted LV2_LOG__log [Demo.map_feature; Demo.request_feature]).
  { intros f [<-|[<-|[]]]; discriminate. }
  split; [exact Hm|]. split; [exact Hr|]. split; [exact Hl|].
  destruct (proj1 (proj2 (instantiate_needs_map_and_request Demo.urid_map 0
                            Demo.rate_48000 EmptyString
                            [Demo.map_feature; Demo.request_feature])) Hm Hr)
    as (self & Hinst & Hlog).
  exists self. split; [exact Hinst|]. now apply Hlog.
Defined.

(** ** The request *)

(** C8. When the request is due in a cycle, the cycle sets [request_sent]
    and calls the host's [request] with the booltest property, the Bool
    type and the instance's feature array, behind which the host finds the
    dialog-message feature: the constant text, [requires_return] false and
    [non_free] as the function that frees the text, which does nothing. *)
Theorem request_carries_dialog_message
    (urid_map : pointer -> string -> LV2_URID) (w : World) (n_samples : Z) :
  reachable urid_map w ->
  cycle_ok w n_samples = true ->
  control (instance w) <> NULL ->
  request_due (instance w) = true ->
  exists cs w',
    run n_samples w = Some (tt, w')
    /\ requests cs = []
    /\ calls w'
       = calls w ++ cs ++
         [request (request_value (instance w))
                  (m_bool_test (uris (instance w)))
                  (atom_Bool (uris (instance w)))
                  [ {| seen_URI := LV2_DIALOGMESSAGE_URI;
                       seen_data := {| free_msg := fn_non_free;
                                       msg := Some msg_dialog;
                                       requires_return := false |} |} ]]
    /\ request_sent (instance w') = true
    /\ dialog_message (instance w')
       = {| free_msg := fn_non_free; msg := Some msg_dialog;
            requires_return := false |}
    /\ forall m world, call_free_msg fn_non_free m world = Some (tt, world).
Proof.
  intros Hw Hok Hc Hdue.
  pose proof (reachable_configured _ _ Hw) as Hconf.
  destruct (run_connected n_samples w Hok Hc) as (cs & Hreq & Hrun).
  exists cs. eexists. split; [exact Hrun|]. split; [exact Hreq|].
  cbn [calls instance].
  rewrite (request_calls_configured _ Hconf), Hdue.
  split; [reflexivity|].
  rewrite request_sent_after_cycle.
  assert (past_two_seconds (instance w) = true) as Hpast
    by (unfold request_due in Hdue; now apply andb_true_iff in Hdue).
  rewrite Hpast, orb_true_r. split; [reflexivity|].
  split; [|reflexivity].
  unfold after_cycle, after_request. rewrite Hdue.
  destruct Hconf as (_ & _ & Hfree & _). cbn. now rewrite Hfree.
Qed.

Lemma request_carries_dialog_message_witness :
  reachable Demo.urid_map (Demo.after Demo.warm_up Demo.world0)
  /\ request_due (instance (Demo.after Demo.warm_up Demo.world0)) = true
  /\ exists cs w',
       run 64 (Demo.after Demo.warm_up Demo.world0) = Some (tt, w')
       /\ calls w'
          = calls (Demo.after Demo.warm_up Demo.world0) ++ cs ++
            [request 3000 9 5
               [ {| seen_URI := LV2_DIALOGMESSAGE_URI;
                    seen_data := {| free_msg := fn_non_free;
                                    msg := Some msg_dialog;
                                    requires_return := false |} |} ]].
Proof.
  assert (R : reachable Demo.urid_map (Demo.after Demo.warm_up Demo.world0)).
  { apply (reachable_steps _ Demo.warm_up Demo.world0); [apply reachable_world0|].
    apply steps_after. vm_compute. reflexivity. }
  assert (D : request_due (instance (Demo.after Demo.warm_up Demo.world0)) = true)
    by (vm_compute; reflexivity).
  split; [exact R|]. split; [exact D|].
  destruct (request_carries_dialog_message Demo.urid_map
              (Demo.after Demo.warm_up Demo.world0) 64 R)
    as (cs & w' & Hrun & _ & Hcalls & _).
  - vm_compute; reflexivity.
  - vm_compute; discriminate.
  - exact D.
  - exists cs, w'. split; [exact Hrun|]. exact Hcalls.
Defined.

(** ** The audio *)

(** C9. A cycle whose output buffer is another storage than its input
    buffer, the two not overlapping, leaves in the first [n_samples]
    samples of the output the bytes the input held before the cycle; a
    cycle whose output is its input leaves the audio memory as it is; no
    byte outside the output buffer changes. *)
Theorem audio_forwarded (w : World) (n_samples : Z) :
  let self := instance w in
  cycle_ok w n_samples = true ->
  0 <= n_samples <= UINT32_MAX ->
  exists w',
    run n_samples w = Some (tt, w')
    /\ (p_out self <> p_in self ->
          forall i, 0 <= i < sizeof_float * n_samples ->
            audio w' (p_out self + i) = audio w (p_in self + i))
    /\ (p_out self = p_in self -> audio w' = audio w)
    /\ (forall a,
          ~ (p_out self <= a < p_out self + sizeof_float * n_samples) ->
          audio w' a = audio w a).
Proof.
  intros self Hok Hn. subst self.
  destruct (run_defined n_samples w Hok) as (w' & Hrun).
  exists w'. split; [exact Hrun|].
  assert (Haudio : audio w' = forwarded w n_samples).
  { pose proof (run_effect n_samples w w' Hrun) as H.
    destruct (control (instance w) =? NULL); [now subst w'|].
    now destruct H as (cs & _ & _ & ->). }
  rewrite Haudio. unfold forwarded. split; [|split].
  - intros Hne i Hi. apply Z.eqb_neq in Hne. rewrite Hne.
    replace ((p_out (instance w) <=? p_out (instance w) + i)
             && (p_out (instance w) + i
                 <? p_out (instance w) + sizeof_float * n_samples))
      with true by (symmetry; apply andb_true_iff;
                    split; [apply Z.leb_le|apply Z.ltb_lt]; lia).
    f_equal. lia.
  - intros Heq. apply Z.eqb_eq in Heq. now rewrite Heq.
  - intros a Ha. destruct (p_out (instance w) =? p_in (instance w)); [reflexivity|].
    destruct (p_out (instance w) <=? a) eqn:H1; [|reflexivity].
    destruct (a <? p_out (instance w) + sizeof_float * n_samples) eqn:H2;
      [|reflexivity].
    apply Z.leb_le in H1. apply Z.ltb_lt in H2. lia.
Qed.

Lemma audio_forwarded_witness :
  cycle_ok Demo.world1 4096 = true
  /\ p_out (instance Demo.world1) <> p_in (instance Demo.world1)
  /\ exists w',
       run 4096 Demo.world1 = Some (tt, w')
       /\ forall i, 0 <= i < 16384 ->
            audio w' (2097152 + i) = Demo.ramp (1048576 + i).
Proof.
  split; [vm_compute; reflexivity|]. split; [discriminate|].
  destruct (audio_forwarded Demo.world1 4096) as (w' & Hrun & Hcopy & _).
  - vm_compute; reflexivity.
  - unfold UINT32_MAX. lia.
  - exists w'. split; [exact Hrun|].
    intros i Hi. apply (Hcopy ltac:(discriminate) i Hi).
Defined.

(** ** Blank *)

Lemma step_uris (s : host_step) (w w' : World) :
  step s w = Some (tt, w') -> uris (instance w') = uris (instance w).
Proof.
  destruct s as [port d|n|a q]; cbn [step].
  - unfold connect_port, modify_self. intros [= <-]. cbn [instance with_instance].
    destruct port as [|[[]|[]|]|]; auto.
  - intros H. apply run_effect in H.
    destruct (control (instance w) =? NULL).
    + now subst w'.
    + destruct H as (cs & _ & _ & ->). cbn [instance].
      unfold after_cycle, after_request. now destruct (request_due (instance w)).
  - unfold host_writes. now intros [= <-].
Qed.

Lemma reachable_uris urid_map (w : World) :
  reachable urid_map w -> exists map, uris (instance w) = map_uris urid_map map.
Proof.
  induction 1 as [d rate bp hf self a q Hinst|w s w' _ [map IH] Hstep].
  - unfold instantiate in Hinst.
    destruct (fold_left _ _ _) as [[map lg] rv].
    destruct (rv =? NULL); [discriminate|].
    destruct (map =? NULL); [discriminate|].
    injection Hinst as <-. now exists map.
  - exists map. now rewrite (step_uris _ _ _ Hstep).
Qed.

(** C10. The identifiers of Blank and of Object both come from the host's
    map at instantiation, and the loop compares the type of an event with
    the one of Object only: an event of any other type, and so an event
    typed Blank as long as the map tells Blank from Object, goes by without
    reaching the decoder and without any effect, also when it is laid out
    as a patch:Set object. *)
Theorem blank_event_skipped
    (urid_map : pointer -> string -> LV2_URID) (w : World) (ev : LV2_Atom_Event) :
  reachable urid_map w ->
  let u := uris (instance w) in
  (exists map, atom_Blank u = urid_map map LV2_ATOM__Blank
               /\ atom_Object u = urid_map map LV2_ATOM__Object)
  /\ (event_type ev <> atom_Object u -> control_event ev w = Some (tt, w))
  /\ (atom_Blank u <> atom_Object u -> event_type ev = atom_Blank u ->
        control_event ev w = Some (tt, w)
        /\ is_set_message u ev = false).
Proof.
  intros Hw u. subst u.
  assert (Hskip : event_type ev <> atom_Object (uris (instance w)) ->
                  control_event ev w = Some (tt, w)).
  { intros Hne. apply Z.eqb_neq in Hne.
    unfold control_event, bind, get_self. now rewrite Hne. }
  split; [|split].
  - destruct (reachable_uris _ _ Hw) as (map & ->). now exists map.
  - exact Hskip.
  - intros Hdiff Hblank. split; [apply Hskip; congruence|].
    destruct ev as [frames obj|frames a]; [|reflexivity].
    cbn [is_set_message event_type] in *. rewrite Hblank.
    apply Z.eqb_neq in Hdiff. now rewrite Hdiff.
Qed.

Lemma blank_event_skipped_witness :
  reachable Demo.urid_map Demo.world0
  /\ atom_Blank (uris (instance Demo.world0))
     <> atom_Object (uris (instance Demo.world0))
  /\ event_type (event_object 1 Demo.blank_set)
     = atom_Blank (uris (instance Demo.world0))
  /\ control_event (event_object 1 Demo.blank_set) Demo.world0
     = Some (tt, Demo.world0).
Proof.
  split; [apply reachable_world0|]. split; [discriminate|]. split; [reflexivity|].
  refine (proj1 (proj2 (proj2 (blank_event_skipped Demo.urid_map Demo.world0
                                 (event_object 1 Demo.blank_set)
                                 reachable_world0)) _ eq_refl)).
  discriminate.
Defined.

(** * Further properties of the code *)

(** ** Ports *)

Lemma with_instance_same (w : World) : with_instance (instance w) w = w.
Proof. now destruct w. Qed.

(** X1. [connect_port] stores the address in [control] for port 0, in
    [p_in] for port 1 and in [p_out] for port 2, leaving the two other
    ports as they are, and ignores every other index; the last connection
    of a port is the one that counts, the connections of two different
    ports can be made in either order, and a connection changes neither
    the counter, nor the flag, nor the calls made, nor the host's memory. *)
Theorem connect_port_composes (w : World) :
  (forall data, exists w',
     connect_port 0 data w = Some (tt, w')
     /\ control (instance w') = data
     /\ p_in (instance w') = p_in (instance w)
     /\ p_out (instance w') = p_out (instance w))
  /\ (forall data, exists w',
        connect_port 1 data w = Some (tt, w')
        /\ p_in (instance w') = data
        /\ control (instance w') = control (instance w)
        /\ p_out (instance w') = p_out (instance w))
  /\ (forall data, exists w',
        connect_port 2 data w = Some (tt, w')
        /\ p_out (instance w') = data
        /\ control (instance w') = control (instance w)
        /\ p_in (instance w') = p_in (instance w))
  /\ (forall port data, port < 0 \/ 2 < port ->
        connect_port port data w = Some (tt, w))
  /\ (forall port d1 d2,
        (connect_port port d1 ;; connect_port port d2) w = connect_port port d2 w)
  /\ (forall p1 p2 d1 d2, p1 <> p2 ->
        (connect_port p1 d1 ;; connect_port p2 d2) w
        = (connect_port p2 d2 ;; connect_port p1 d1) w)
  /\ (forall port data w', connect_port port data w = Some (tt, w') ->
        sample_cnt (instance w') = sample_cnt (instance w)
        /\ request_sent (instance w') = request_sent (instance w)
        /\ calls w' = calls w /\ audio w' = audio w
        /\ sequences w' = sequences w).
Proof.
  split; [|split; [|split; [|split; [|split; [|split]]]]].
  - intros data. eexists. split; [reflexivity|]. repeat split.
  - intros data. eexists. split; [reflexivity|]. repeat split.
  - intros data. eexists. split; [reflexivity|]. repeat split.
  - intros port data Hport. unfold connect_port, modify_self.
    destruct port as [|[p|p|]|p]; try lia.
    + now rewrite with_instance_same.
    + destruct p; try lia; now rewrite with_instance_same.
    + now rewrite with_instance_same.
  - intros port d1 d2. unfold bind, connect_port, modify_self.
    destruct port as [|[[]|[]|]|]; reflexivity.
  - intros p1 p2 d1 d2 Hne. unfold bind, connect_port, modify_self.
    destruct p1 as [|[[]|[]|]|], p2 as [|[[]|[]|]|];
      try reflexivity; exfalso; now apply Hne.
  - intros port data w'. unfold connect_port, modify_self. intros [= <-].
    cbn [instance with_instance calls audio sequences].
    destruct port as [|[[]|[]|]|]; repeat split.
Qed.

Lemma connect_port_composes_witness :
  (exists w', connect_port 0 640 Demo.world1 = Some (tt, w')
              /\ control (instance w') = 640)
  /\ connect_port 3 4096 Demo.world1 = Some (tt, Demo.world1)
  /\ (connect_port 1 64 ;; connect_port 2 128) Demo.world1
     = (connect_port 2 128 ;; connect_port 1 64) Demo.world1.
Proof.
  split; [|split].
  - destruct (proj1 (connect_port_composes Demo.world1) 640) as (w' & H & Hc & _).
    exists w'. split; [exact H|exact Hc].
  - apply (proj1 (proj2 (proj2 (proj2 (connect_port_composes Demo.world1))))
             3 4096).
    right. lia.
  - apply (proj1 (proj2 (proj2 (proj2 (proj2 (proj2
                    (connect_port_composes Demo.world1)))))) 1 2 64 128).
    discriminate.
Defined.

(** ** What a cycle leaves alone *)

(** X2. A cycle changes neither the ports, nor the logger, nor the handle
    of the request feature, nor the feature array and its dialog feature,
    nor the URIDs, nor the sample rate, nor the control sequences: of the
    instance only the counter, the flag and the dialog message can
    differ afterwards. *)
Theorem run_keeps_configuration (n_samples : Z) (w w' : World) :
  run n_samples w = Some (tt, w') ->
  control (instance w') = control (instance w)
  /\ p_in (instance w') = p_in (instance w)
  /\ p_out (instance w') = p_out (instance w)
  /\ log (instance w') = log (instance w)
  /\ logger (instance w') = logger (instance w)
  /\ request_value (instance w') = request_value (instance w)
  /\ features (instance w') = features (instance w)
  /\ dialog_feature (instance w') = dialog_feature (instance w)
  /\ uris (instance w') = uris (instance w)
  /\ sample_rate (instance w') = sample_rate (instance w)
  /\ sequences w' = sequences w.
Proof.
  intros Hrun. apply run_effect in Hrun.
  destruct (control (instance w) =? NULL).
  - subst w'. repeat split.
  - destruct Hrun as (cs & _ & _ & ->). cbn [instance sequences].
    unfold after_cycle, after_request.
    destruct (request_due (instance w)); repeat split.
Qed.

Lemma run_keeps_configuration_witness :
  exists w',
    run 64 Demo.world1 = Some (tt, w')
    /\ control (instance w') = 500
    /\ sample_rate (instance w') = Demo.rate_48000.
Proof.
  destruct (run_defined 64 Demo.world1) as (w' & Hrun);
    [vm_compute; reflexivity|].
  exists w'. split; [exact Hrun|].
  destruct (run_keeps_configuration 64 Demo.world1 w' Hrun)
    as (Hc & _ & _ & _ & _ & _ & _ & _ & _ & Hr & _).
  split; [exact Hc|exact Hr].
Defined.

(** ** The counter over a whole session *)

Lemma uint64_range (z : Z) : 0 <= uint64 z < 2 ^ 64.
Proof. unfold uint64. apply Z.mod_pos_bound. reflexivity. Qed.

Lemma step_counted (s : host_step) (w w' : World) :
  step s w = Some (tt, w') ->
  0 <= sample_cnt (instance w) < 2 ^ 64 ->
  sample_cnt (instance w')
  = uint64 (sample_cnt (instance w) + counted_samples (control (instance w)) [s])
  /\ counted_samples (control (instance w')) = counted_samples
       (match s with
        | step_connect_port port data =>
            if port =? 0 then data else control (instance w)
        | _ => control (instance w)
        end).
Proof.
  intros Hstep Hcnt. destruct s as [port d|n|a q]; cbn [step counted_samples] in *.
  - unfold connect_port, modify_self in Hstep. injection Hstep as <-.
    cbn [instance with_instance]. rewrite Z.add_0_r.
    split; [|destruct port as [|[[]|[]|]|]; reflexivity].
    unfold uint64. rewrite Z.mod_small by lia.
    destruct port as [|[[]|[]|]|]; reflexivity.
  - pose proof (run_effect n w w' Hstep) as H.
    destruct (control (instance w) =? NULL).
    + subst w'. cbn [instance with_audio]. split; [|reflexivity].
      unfold uint64. rewrite !Z.add_0_r. now rewrite Z.mod_small by lia.
    + destruct H as (cs & _ & _ & ->). cbn [instance]. rewrite Z.add_0_r.
      unfold after_cycle, after_request.
      destruct (request_due (instance w)); split; reflexivity.
  - unfold host_writes in Hstep. injection Hstep as <-.
    cbn [instance with_audio with_sequences]. rewrite Z.add_0_r.
    split; [|reflexivity]. unfold uint64. now rewrite Z.mod_small by lia.
Qed.

(** X3. Over any sequence of steps the counter ends as what it was plus the
    frames of the cycles that found the control port connected, in
    [uint64_t] arithmetic: cycles run while the port is null, connections
    and writes of the host add nothing. *)
Theorem sample_cnt_counts_connected_cycles (l : list host_step) (w w' : World) :
  steps l w = Some (tt, w') ->
  0 <= sample_cnt (instance w) < 2 ^ 64 ->
  sample_cnt (instance w')
  = uint64 (sample_cnt (instance w) + counted_samples (control (instance w)) l).
Proof.
  revert w. induction l as [|s l IH]; intros w Hsteps Hcnt; cbn [steps] in Hsteps.
  - injection Hsteps as <-. cbn [counted_samples]. rewrite Z.add_0_r.
    unfold uint64. now rewrite Z.mod_small by lia.
  - unfold bind in Hsteps.
    destruct (step s w) as [[[] w1]|] eqn:Hs; [|discriminate].
    destruct (step_counted s w w1 Hs Hcnt) as [H1 H2].
    assert (0 <= sample_cnt (instance w1) < 2 ^ 64) as Hcnt1
      by (rewrite H1; apply uint64_range).
    rewrite (IH w1 Hsteps Hcnt1), H1, H2. unfold uint64.
    rewrite Z.add_mod_idemp_l by (cbv; discriminate).
    f_equal. destruct s as [port d|n|a q]; cbn [counted_samples]; lia.
Qed.

Lemma sample_cnt_counts_connected_cycles_witness :
  sample_cnt (instance (Demo.after (step_run 512 :: Demo.session) Demo.world0))
  = 96001 + 64 + 64.
Proof.
  rewrite (sample_cnt_counts_connected_cycles (step_run 512 :: Demo.session)
             Demo.world0 (Demo.after (step_run 512 :: Demo.session) Demo.world0)).
  - reflexivity.
  - apply steps_after. vm_compute. reflexivity.
  - vm_compute. split; [discriminate|reflexivity].
Defined.

(** ** What the decoder and the cycles send to the host *)

Lemma parse_property_report (obj : LV2_Atom_Object) (w w' : World) (r : bool) :
  parse_property obj w = Some (r, w') ->
  exists c,
    w' = with_calls (calls w ++ [c]) w
    /\ if r
       then exists b, c = lv2_log_note (logger (instance w)) msg_received [Z.b2z b]
       else exists fmt, c = lv2_log_error (logger (instance w)) fmt [].
Proof.
  unfold parse_property, bind, get_self, host_call, ret.
  destruct (lv2_atom_object_get obj (patch_property _)) as [property|].
  2:{ intros [= <- <-]. eexists. split; [reflexivity|eauto]. }
  destruct (negb (atom_type property =? _)).
  { intros [= <- <-]. eexists. split; [reflexivity|eauto]. }
  destruct (lv2_atom_object_get obj (patch_value _)) as [val|].
  2:{ intros [= <- <-]. eexists. split; [reflexivity|eauto]. }
  destruct (URID_body property w) as [[id w1]|] eqn:Hid; [|discriminate].
  apply URID_body_pure in Hid. subst w1.
  destruct (id =? _).
  2:{ intros [= <- <-]. eexists. split; [reflexivity|eauto]. }
  destruct (negb (atom_type val =? _)).
  { intros [= <- <-]. eexists. split; [reflexivity|eauto]. }
  destruct (bool_body val w) as [[b w1]|] eqn:Hb; [|discriminate].
  apply bool_body_pure in Hb. subst w1.
  intros [= <- <-]. eexists. split; [reflexivity|eauto].
Qed.



Lemma plugin_call_stable (s s' : ReqVal) (c : HostCall) :
  logger s' = logger s -> the_request s' = the_request s ->
  plugin_call s c -> plugin_call s' c.
Proof. unfold plugin_call. intros -> ->. auto. Qed.

Lemma control_event_calls (ev : LV2_Atom_Event) (w w' : World) :
  control_event ev w = Some (tt, w') ->
  exists cs, w' = with_calls (calls w ++ cs) w
             /\ Forall (plugin_call (instance w)) cs.
Proof.
  intros H. destruct (is_set_message (uris (instance w)) ev) eqn:Hset.
  - destruct ev as [frames obj|frames a]; [|discriminate].
    rewrite (control_event_set _ _ _ Hset) in H. unfold bind, ret in H.
    destruct (parse_property obj w) as [[r w1]|] eqn:Hparse; [|discriminate].
    injection H as <-.
    destruct (parse_property_report _ _ _ _ Hparse) as (c & -> & Hc).
    exists [c]. split; [reflexivity|]. constructor; [|constructor].
    right. destruct r; destruct Hc as [x ->]; eauto.
  - apply control_event_effect in H as (cs & _ & Hlen & ->).
    rewrite Hset in Hlen. destruct cs; [|discriminate].
    exists []. split; [reflexivity|constructor].
Qed.

Lemma foreach_calls (seq : LV2_Atom_Sequence) (w w' : World) :
  LV2_ATOM_SEQUENCE_FOREACH seq control_event w = Some (tt, w') ->
  exists cs, w' = with_calls (calls w ++ cs) w
             /\ Forall (plugin_call (instance w)) cs.
Proof.
  revert w. induction seq as [|ev rest IH]; intros w.
  - intros [= <-]. exists []. rewrite with_calls_same. split; [reflexivity|constructor].
  - cbn [LV2_ATOM_SEQUENCE_FOREACH]. unfold bind.
    destruct (control_event ev w) as [[[] w1]|] eqn:Hev; [|discriminate].
    apply control_event_calls in Hev as (cs1 & -> & H1).
    intros H. apply IH in H as (cs2 & -> & H2).
    exists (cs1 ++ cs2). cbn [with_calls calls instance] in *.
    rewrite app_assoc. split; [reflexivity|]. apply Forall_app. now split.
Qed.

Lemma step_logger (s : host_step) (w w' : World) :
  step s w = Some (tt, w') -> logger (instance w') = logger (instance w).
Proof.
  destruct s as [port d|n|a q]; cbn [step].
  - unfold connect_port, modify_self. intros [= <-]. cbn [instance with_instance].
    destruct port as [|[[]|[]|]|]; auto.
  - intros H. apply run_effect in H.
    destruct (control (instance w) =? NULL).
    + now subst w'.
    + destruct H as (cs & _ & _ & ->). cbn [instance].
      unfold after_cycle, after_request. now destruct (request_due (instance w)).
  - unfold host_writes. now intros [= <-].
Qed.

Lemma step_plugin_calls (s : host_step) (w w' : World) :
  configured (instance w) ->
  step s w = Some (tt, w') ->
  Forall (plugin_call (instance w)) (calls w) ->
  Forall (plugin_call (instance w')) (calls w').
Proof.
  intros Hconf Hstep Hall.
  assert (Hstable : forall c, plugin_call (instance w) c -> plugin_call (instance w') c).
  { intros c. apply plugin_call_stable;
      [exact (step_logger _ _ _ Hstep)|exact (step_the_request _ _ _ Hstep)]. }
  assert (Hnew : exists cs, calls w' = calls w ++ cs
                            /\ Forall (plugin_call (instance w)) cs).
  { destruct s as [port d|n|a q]; cbn [step] in Hstep.
    - unfold connect_port, modify_self in Hstep. injection Hstep as <-.
      exists []. cbn. rewrite app_nil_r. split; [reflexivity|constructor].
    - destruct (control (instance w) =? NULL) eqn:Hc.
      + apply run_effect in Hstep. rewrite Hc in Hstep. subst w'.
        exists []. cbn. rewrite app_nil_r. split; [reflexivity|constructor].
      + destruct (run_loop n w w' Hstep Hc) as (w2 & Hloop & ->).
        apply foreach_calls in Hloop as (cs & -> & Hcs).
        cbn [with_audio with_calls instance calls] in *.
        exists (cs ++ request_calls (instance w)). rewrite app_assoc.
        split; [reflexivity|]. apply Forall_app. split; [exact Hcs|].
        rewrite (request_calls_configured _ Hconf).
        destruct (request_due (instance w)); constructor; [now left|constructor].
    - unfold host_writes in Hstep. injection Hstep as <-.
      exists []. cbn. rewrite app_nil_r. split; [reflexivity|constructor]. }
  destruct Hnew as (cs & -> & Hcs).
  apply Forall_app. split; (eapply Forall_impl; [exact Hstable|assumption]).
Qed.

(** X5. The calls recorded here are the lines written to the host's log
    or to [stderr] and the calls of [request]; the questions [instantiate]
    puts to the host's map are answers of [urid_map] and not among them.
    Of these calls, every one an instance has made since it was created is
    its one request or a line sent through its own logger as an error or
    as a note; so an instance that was given a log never writes to
    [stderr], and one that was not given a log never calls the host's
    log. *)
Theorem calls_go_through_the_logger
    (urid_map : pointer -> string -> LV2_URID) (w : World) :
  reachable urid_map w ->
  Forall (plugin_call (instance w)) (calls w)
  /\ (logger_log (logger (instance w)) <> NULL ->
        forall fmt args, ~ In (stderr_vfprintf fmt args) (calls w))
  /\ (logger_log (logger (instance w)) = NULL ->
        forall handle type fmt args,
          ~ In (log_vprintf handle type fmt args) (calls w)).
Proof.
  intros Hw.
  assert (Hall : Forall (plugin_call (instance w)) (calls w)).
  { induction Hw as [d rate bp hf self a q Hinst|w s w' Hw IH Hstep].
    - constructor.
    - eapply step_plugin_calls; eauto using reachable_configured. }
  split; [exact Hall|]. rewrite Forall_forall in Hall.
  split.
  - intros Hlog fmt args Hin. apply Z.eqb_neq in Hlog.
    destruct (Hall _ Hin) as [H|(f & a & [H|H])];
      unfold the_request, lv2_log_error, lv2_log_note, lv2_log_vprintf in H;
      rewrite ?Hlog in H; discriminate.
  - intros Hlog handle type fmt args Hin.
    destruct (Hall _ Hin) as [H|(f & a & [H|H])];
      unfold the_request, lv2_log_error, lv2_log_note, lv2_log_vprintf in H;
      rewrite ?Hlog in H; discriminate.
Qed.

Lemma calls_go_through_the_logger_witness :
  reachable Demo.urid_map (Demo.after Demo.session Demo.world0)
  /\ forall fmt args,
       ~ In (stderr_vfprintf fmt args) (calls (Demo.after Demo.session Demo.world0)).
Proof.
  assert (R : reachable Demo.urid_map (Demo.after Demo.session Demo.world0)).
  { apply (reachable_steps _ Demo.session Demo.world0); [apply reachable_world0|].
    apply steps_after. vm_compute. reflexivity. }
  split; [exact R|].
  apply (proj1 (proj2 (calls_go_through_the_logger Demo.urid_map _ R))).
  vm_compute. discriminate.
Defined.

(** ** The flag and the dialog message *)

(** X6. The dialog message goes with the flag: as long as no request was
    made the host finds, behind the dialog feature, no text and
    [requires_return] true, as [instantiate] set them; from the request on
    it finds the constant text and [requires_return] false, for good. *)
Theorem dialog_message_follows_flag
    (urid_map : pointer -> string -> LV2_URID) (w : World) :
  reachable urid_map w ->
  dialog_message (instance w)
  = if request_sent (instance w) then dialog_message_sent
    else dialog_message_initial.
Proof.
  induction 1 as [d rate bp hf self a q Hinst|w s w' Hw IH Hstep].
  - unfold instantiate in Hinst.
    destruct (fold_left _ _ _) as [[map lg] rv].
    destruct (rv =? NULL); [discriminate|].
    destruct (map =? NULL); [discriminate|].
    injection Hinst as <-. reflexivity.
  - destruct s as [port d|n|a q]; cbn [step] in Hstep.
    + unfold connect_port, modify_self in Hstep. injection Hstep as <-.
      cbn [instance with_instance]. destruct port as [|[[]|[]|]|]; exact IH.
    + apply run_effect in Hstep.
      destruct (control (instance w) =? NULL); [now subst w'|].
      destruct Hstep as (cs & _ & _ & ->). cbn [instance].
      rewrite request_sent_after_cycle.
      unfold after_cycle, after_request, request_due.
      destruct (request_sent (instance w)) eqn:Hs; cbn [negb andb orb].
      * exact IH.
      * destruct (past_two_seconds (instance w)); cbn; [|exact IH].
        now rewrite IH.
    + unfold host_writes in Hstep. now injection Hstep as <-.
Qed.

Lemma dialog_message_follows_flag_witness :
  dialog_message (instance (Demo.after Demo.warm_up Demo.world0))
  = dialog_message_initial
  /\ dialog_message (instance (Demo.after Demo.session Demo.world0))
     = dialog_message_sent.
Proof.
  split.
  - rewrite (dialog_message_follows_flag Demo.urid_map).
    + vm_compute. reflexivity.
    + apply (reachable_steps _ Demo.warm_up Demo.world0); [apply reachable_world0|].
      apply steps_after. vm_compute. reflexivity.
  - rewrite (dialog_message_follows_flag Demo.urid_map).
    + vm_compute. reflexivity.
    + apply (reachable_steps _ Demo.session Demo.world0); [apply reachable_world0|].
      apply steps_after. vm_compute. reflexivity.
Defined.

(** ** The test on the sample rate *)

(** X7. For an integral sample rate below 2^52 and a counter below 2^53 the
    comparison of line 260, made in [double], is the comparison of the
    integers: nothing is lost in the two conversions and in the doubling. *)
Theorem two_seconds_test_exact (self : ReqVal) (r : Z) :
  sample_rate self = double_of_Z r ->
  0 <= r < 2 ^ 52 ->
  0 <= sample_cnt self < 2 ^ 53 ->
  past_two_seconds self = (2 * r <? sample_cnt self).
Proof.
  intros Hrate Hr Hcnt. unfold past_two_seconds. rewrite Hrate.
  now apply double_gt_2rate.
Qed.

Lemma two_seconds_test_exact_witness :
  past_two_seconds (set_sample_cnt 88201 (set_control 500 Demo.self0)) = false
  /\ past_two_seconds (set_sample_cnt 96001 (set_control 500 Demo.self0)) = true.
Proof.
  split.
  - rewrite (two_seconds_test_exact _ 48000); [reflexivity|reflexivity| |];
      cbn; lia.
  - rewrite (two_seconds_test_exact _ 48000); [reflexivity|reflexivity| |];
      cbn; lia.
Defined.

Lemma never_due_nan : never_due S754_nan.
Proof. intros cnt. unfold double_gt, double_mul. reflexivity. Qed.

Lemma never_due_infinity : never_due (S754_infinity false).
Proof.
  intros cnt. unfold double_gt, double_mul.
  change (SFmul 53 1024 (double_of_Z 2) (S754_infinity false))
    with (S754_infinity false).
  unfold SFltb, SFcompare. now destruct (double_of_Z cnt) as [| [] | |].
Qed.

Lemma step_never_due (s : host_step) (w w' : World) :
  never_due (sample_rate (instance w)) ->
  step s w = Some (tt, w') ->
  request_sent (instance w) = false /\ requests (calls w) = [] ->
  never_due (sample_rate (instance w'))
  /\ request_sent (instance w') = false /\ requests (calls w') = [].
Proof.
  intros Hnever Hstep [Hs Hreq].
  destruct s as [port d|n|a q]; cbn [step] in Hstep.
  - unfold connect_port, modify_self in Hstep. injection Hstep as <-.
    cbn [instance with_instance calls]. destruct port as [|[[]|[]|]|]; auto.
  - apply run_effect in Hstep.
    destruct (control (instance w) =? NULL); [now subst w'|].
    destruct Hstep as (cs & Hcs & _ & ->). cbn [instance calls].
    assert (request_due (instance w) = false) as Hdue.
    { unfold request_due, past_two_seconds. now rewrite Hnever, andb_false_r. }
    rewrite !requests_app, Hreq, Hcs.
    unfold request_calls, after_cycle, after_request. rewrite Hdue.
    cbn. auto.
  - unfold host_writes in Hstep. now injection Hstep as <-.
Qed.

(** X8. An instance made with a sample rate that is not a number, or that
    is plus infinity, never makes the request, whatever the host does and
    however long it runs: the comparison of line 260 is false for every
    counter. *)
Theorem no_request_at_nan_or_infinite_rate
    (urid_map : pointer -> string -> LV2_URID) (descriptor : pointer)
    (rate : double) (bundle_path : string) (host_features : list LV2_Feature)
    (self : ReqVal) (a : pointer -> byte) (q : pointer -> LV2_Atom_Sequence)
    (l : list host_step) (w : World) :
  rate = S754_nan \/ rate = S754_infinity false ->
  instantiate urid_map descriptor rate bundle_path host_features = ([], Some self) ->
  steps l (fresh_world self a q) = Some (tt, w) ->
  request_sent (instance w) = false /\ requests (calls w) = [].
Proof.
  intros Hrate Hinst Hsteps.
  apply instantiate_configured in Hinst as (_ & _ & Hs & Hr & _).
  assert (Hnever : never_due (sample_rate (instance (fresh_world self a q)))).
  { cbn [instance fresh_world]. rewrite Hr.
    destruct Hrate as [-> | ->]; [apply never_due_nan|apply never_due_infinity]. }
  assert (Hstart : request_sent (instance (fresh_world self a q)) = false
                   /\ requests (calls (fresh_world self a q)) = [])
    by (split; [exact Hs|reflexivity]).
  clear Hs Hr Hrate. revert Hsteps Hnever Hstart.
  generalize (fresh_world self a q) as w0.
  induction l as [|s l IH]; intros w0 Hsteps Hnever Hstart; cbn [steps] in Hsteps.
  - now injection Hsteps as <-.
  - unfold bind in Hsteps.
    destruct (step s w0) as [[[] w1]|] eqn:Hs; [|discriminate].
    destruct (step_never_due s w0 w1 Hnever Hs Hstart) as (Hn1 & Hs1).
    exact (IH w1 Hsteps Hn1 Hs1).
Qed.

Lemma no_request_at_nan_or_infinite_rate_witness :
  exists self,
    instantiate Demo.urid_map 0 S754_nan EmptyString Demo.host_features
    = ([], Some self)
    /\ requests
         (calls (Demo.after Demo.session
                   (fresh_world self Demo.ramp Demo.events))) = [].
Proof.
  eexists. split; [reflexivity|].
  refine (proj2 (no_request_at_nan_or_infinite_rate Demo.urid_map 0 S754_nan
                   EmptyString Demo.host_features _ Demo.ramp Demo.events
                   Demo.session _ (or_introl eq_refl) eq_refl _)).
  apply steps_after. vm_compute. reflexivity.
Defined.

(** ** More on the audio *)

Lemma run_audio (n_samples : Z) (w w' : World) :
  run n_samples w = Some (tt, w') ->
  audio w' = forwarded w n_samples
  /\ p_in (instance w') = p_in (instance w)
  /\ p_out (instance w') = p_out (instance w)
  /\ cycle_ok w' n_samples = cycle_ok w n_samples.
Proof.
  intros Hrun. apply run_effect in Hrun.
  destruct (control (instance w) =? NULL).
  - subst w'. repeat split.
  - destruct Hrun as (cs & _ & _ & ->).
    rewrite cycle_ok_after_cycle. cbn [audio instance].
    unfold after_cycle, after_request.
    destruct (request_due (instance w)); repeat split.
Qed.

Lemma forwarded_input (w : World) (n_samples i : Z) :
  (p_out (instance w) =? p_in (instance w))
  || buffers_apart (instance w) n_samples = true ->
  0 <= i < sizeof_float * n_samples ->
  forwarded w n_samples (p_in (instance w) + i) = audio w (p_in (instance w) + i).
Proof.
  unfold forwarded, buffers_apart. intros Hbuf Hi.
  destruct (p_out (instance w) =? p_in (instance w)); [reflexivity|].
  cbn [orb] in Hbuf. apply orb_true_iff in Hbuf.
  destruct (p_out (instance w) <=? p_in (instance w) + i) eqn:H1; [|reflexivity].
  destruct (p_in (instance w) + i <? p_out (instance w) + sizeof_float * n_samples)
    eqn:H2; [|reflexivity].
  apply Z.leb_le in H1. apply Z.ltb_lt in H2.
  destruct Hbuf as [Hb|Hb]; apply Z.leb_le in Hb; lia.
Qed.

(** X9. A cycle on buffers that do not overlap never writes to the input
    buffer, and a second cycle of the same length, run right after the
    first, leaves every byte of the audio memory as the first left it. *)
Theorem input_untouched_and_forwarding_idempotent (w : World) (n_samples : Z) :
  cycle_ok w n_samples = true ->
  exists w',
    run n_samples w = Some (tt, w')
    /\ (forall i, 0 <= i < sizeof_float * n_samples ->
          audio w' (p_in (instance w) + i) = audio w (p_in (instance w) + i))
    /\ exists w'',
         run n_samples w' = Some (tt, w'')
         /\ forall a, audio w'' a = audio w' a.
Proof.
  intros Hok. destruct (run_defined n_samples w Hok) as (w' & Hrun).
  destruct (run_audio n_samples w w' Hrun) as (Ha & Hin & Hout & Hok').
  assert (Hbuf : (p_out (instance w) =? p_in (instance w))
                 || buffers_apart (instance w) n_samples = true)
    by (unfold cycle_ok in Hok; now apply andb_true_iff in Hok).
  exists w'. split; [exact Hrun|]. split.
  - intros i Hi. rewrite Ha. now apply forwarded_input.
  - rewrite Hok in Hok'. destruct (run_defined n_samples w' Hok') as (w'' & Hrun').
    exists w''. split; [exact Hrun'|].
    destruct (run_audio n_samples w' w'' Hrun') as (Ha' & _).
    intros a. rewrite Ha'. unfold forwarded at 1. rewrite Hin, Hout.
    destruct (p_out (instance w) =? p_in (instance w)) eqn:Heq; [reflexivity|].
    destruct ((p_out (instance w) <=? a)
              && (a <? p_out (instance w) + sizeof_float * n_samples)) eqn:Hreg;
      [|reflexivity].
    rewrite Ha. unfold forwarded at 2. rewrite Heq, Hreg.
    apply andb_true_iff in Hreg as [H1 H2].
    apply Z.leb_le in H1. apply Z.ltb_lt in H2.
    apply forwarded_input; [now rewrite Heq|lia].
Qed.

Lemma input_untouched_and_forwarding_idempotent_witness :
  exists w',
    run 4096 Demo.world1 = Some (tt, w')
    /\ forall i, 0 <= i < 16384 ->
         audio w' (1048576 + i) = Demo.ramp (1048576 + i).
Proof.
  destruct (input_untouched_and_forwarding_idempotent Demo.world1 4096)
    as (w' & Hrun & Hin & _); [vm_compute; reflexivity|].
  exists w'. split; [exact Hrun|exact Hin].
Defined.

(** X10. A cycle of no frames is a full cycle but for the audio: it needs
    no room between the buffers and leaves every byte of the audio memory
    alone, it still runs the decoder on the patch:Set objects of the
    control sequence and sends their reports, it leaves the counter where
    it is, and it makes the request when the request is due. *)
Theorem zero_frame_cycle (w : World) :
  (control (instance w) =? NULL)
  || forallb (readable_event (uris (instance w)))
             (sequences w (control (instance w))) = true ->
  0 <= sample_cnt (instance w) < 2 ^ 64 ->
  exists w',
    run 0 w = Some (tt, w')
    /\ (forall a, audio w' a = audio w a)
    /\ sample_cnt (instance w') = sample_cnt (instance w)
    /\ request_sent (instance w')
       = request_sent (instance w)
         || (negb (control (instance w) =? NULL) && past_two_seconds (instance w))
    /\ requests (calls w')
       = requests (calls w)
         ++ (if control (instance w) =? NULL then []
             else request_calls (instance w))
    /\ (control (instance w) <> NULL ->
          exists w2,
            decode_each
              (set_messages (uris (instance w))
                 (sequences w (control (instance w))))
              (with_audio (forwarded w 0) w) = Some (tt, w2)
            /\ calls w' = calls w2 ++ request_calls (instance w)).
Proof.
  intros Hseq Hcnt.
  assert (Hok : cycle_ok w 0 = true).
  { unfold cycle_ok, buffers_apart. rewrite Hseq, Z.mul_0_r. cbn.
    now rewrite orb_true_r. }
  destruct (run_defined 0 w Hok) as (w' & Hrun).
  exists w'. split; [exact Hrun|].
  destruct (run_audio 0 w w' Hrun) as (Ha & _).
  split.
  { intros a. rewrite Ha. unfold forwarded.
    destruct (p_out (instance w) =? p_in (instance w)); [reflexivity|].
    rewrite Z.mul_0_r, Z.add_0_r.
    destruct (p_out (instance w) <=? a) eqn:H1; [|reflexivity].
    destruct (a <? p_out (instance w)) eqn:H2; [|reflexivity].
    apply Z.leb_le in H1. apply Z.ltb_lt in H2. lia. }
  assert (Hloop : control (instance w) <> NULL ->
            exists w2,
              decode_each
                (set_messages (uris (instance w))
                   (sequences w (control (instance w))))
                (with_audio (forwarded w 0) w) = Some (tt, w2)
              /\ calls w' = calls w2 ++ request_calls (instance w)).
  { intros Hc. destruct (run_dispatches 0 w Hok Hc) as (w2 & Hdec & Hrun2).
    exists w2. split; [exact Hdec|].
    rewrite Hrun in Hrun2. now injection Hrun2 as ->. }
  apply run_effect in Hrun.
  destruct (control (instance w) =? NULL).
  - subst w'. cbn [instance with_audio calls negb andb].
    rewrite orb_false_r, app_nil_r. repeat split. exact Hloop.
  - destruct Hrun as (cs & Hcs & _ & ->). cbn [instance calls negb andb].
    rewrite request_sent_after_cycle, !requests_app, Hcs. cbn [app].
    split; [|split; [reflexivity|split; [|exact Hloop]]].
    + unfold after_cycle, after_request, uint64. rewrite Z.add_0_r.
      destruct (request_due (instance w)); cbn; now apply Z.mod_small.
    + f_equal. unfold request_calls. now destruct (request_due (instance w)).
Qed.

Lemma zero_frame_cycle_witness :
  exists w',
    run 0 (Demo.after Demo.warm_up Demo.world0) = Some (tt, w')
    /\ sample_cnt (instance w') = 96001
    /\ request_sent (instance w') = true
    /\ List.length (calls w') = 5%nat.
Proof.
  destruct (zero_frame_cycle (Demo.after Demo.warm_up Demo.world0))
    as (w' & Hrun & _ & Hcnt & Hsent & _ & Hloop).
  - vm_compute. reflexivity.
  - vm_compute. split; [discriminate|reflexivity].
  - exists w'. split; [exact Hrun|]. split; [|split].
    + rewrite Hcnt. vm_compute. reflexivity.
    + rewrite Hsent. vm_compute. reflexivity.
    + destruct Hloop as (w2 & Hdec & ->); [vm_compute; discriminate|].
      assert (E : option_map (fun r => List.length (calls (snd r)))
                    (decode_each
                       (set_messages
                          (uris (instance (Demo.after Demo.warm_up Demo.world0)))
                          (sequences (Demo.after Demo.warm_up Demo.world0)
                             (control (instance (Demo.after Demo.warm_up Demo.world0)))))
                       (with_audio (forwarded (Demo.after Demo.warm_up Demo.world0) 0)
                          (Demo.after Demo.warm_up Demo.world0)))
                  = Some 4%nat) by (vm_compute; reflexivity).
      rewrite Hdec in E. cbn [option_map snd] in E. injection E as E.
      rewrite length_app, E. vm_compute. reflexivity.
Defined.

(** ** A whole cycle over one message *)

Lemma parse_property_bool (obj : LV2_Atom_Object) (w : World)
    (property val : LV2_Atom) (b : bool) :
  0 <= m_bool_test (uris (instance w)) <= UINT32_MAX ->
  lv2_atom_object_get obj (patch_property (uris (instance w))) = Some property ->
  atom_type property = atom_URID (uris (instance w)) ->
  atom_body property = urid_payload (m_bool_test (uris (instance w))) ->
  lv2_atom_object_get obj (patch_value (uris (instance w))) = Some val ->
  atom_type val = atom_Bool (uris (instance w)) ->
  atom_body val = bool_payload b ->
  parse_property obj w
  = Some (true,
          with_calls
            (calls w ++ [lv2_log_note (logger (instance w)) msg_received [Z.b2z b]])
            w).
Proof.
  intros Hid Hp Htp Hbp Hv Htv Hbv.
  unfold parse_property, bind at 1. unfold get_self at 1.
  rewrite Hp, Htp, Z.eqb_refl. cbn [negb]. rewrite Hv.
  unfold bind at 1. rewrite (URID_body_payload _ _ _ Hid Hbp).
  rewrite Z.eqb_refl, Htv, Z.eqb_refl. cbn [negb].
  unfold bind at 1. rewrite (bool_body_payload _ _ _ Hbv).
  reflexivity.
Qed.

(** X11. A cycle whose control sequence holds one well-formed patch:Set
    message for booltest sends the note with the received boolean first
    and then, when it is due, the request; the instance ends as after any
    connected cycle, with the frames counted. *)
Theorem cycle_with_one_set_message (w : World) (n_samples frames : Z)
    (obj : LV2_Atom_Object) (property val : LV2_Atom) (b : bool) :
  let self := instance w in
  cycle_ok w n_samples = true ->
  control self <> NULL ->
  sequences w (control self) = [event_object frames obj] ->
  is_set_message (uris self) (event_object frames obj) = true ->
  0 <= m_bool_test (uris self) <= UINT32_MAX ->
  lv2_atom_object_get obj (patch_property (uris self)) = Some property ->
  atom_type property = atom_URID (uris self) ->
  atom_body property = urid_payload (m_bool_test (uris self)) ->
  lv2_atom_object_get obj (patch_value (uris self)) = Some val ->
  atom_type val = atom_Bool (uris self) ->
  atom_body val = bool_payload b ->
  exists w',
    run n_samples w = Some (tt, w')
    /\ instance w' = after_cycle n_samples self
    /\ calls w'
       = calls w ++ [lv2_log_note (logger self) msg_received [Z.b2z b]]
         ++ request_calls self.
Proof.
  intros self Hok Hc Hseq Hset Hid Hp Htp Hbp Hv Htv Hbv. subst self.
  destruct (run_connected n_samples w Hok Hc) as (cs & _ & Hrun).
  eexists. split; [exact Hrun|]. split; [reflexivity|].
  assert (Hc' : (control (instance w) =? NULL) = false) by now apply Z.eqb_neq.
  destruct (run_loop n_samples w _ Hrun Hc') as (w2 & Hloop & ->).
  rewrite Hseq in Hloop. cbn [LV2_ATOM_SEQUENCE_FOREACH] in Hloop.
  unfold bind at 1 in Hloop.
  rewrite (control_event_set frames obj
             (with_audio (forwarded w n_samples) w) Hset) in Hloop.
  unfold bind at 1 in Hloop.
  rewrite (parse_property_bool obj (with_audio (forwarded w n_samples) w)
             property val b Hid Hp Htp Hbp Hv Htv Hbv) in Hloop.
  injection Hloop as <-. cbn [calls with_calls with_audio instance].
  now rewrite <- app_assoc.
Qed.

Lemma cycle_with_one_set_message_witness :
  exists w',
    run 64 Demo.world2 = Some (tt, w')
    /\ calls w' = [log_vprintf 2000 12 msg_received [0]].
Proof.
  destruct (cycle_with_one_set_message Demo.world2 64 7 (Demo.set_bool false)
              {| atom_type := atom_URID Demo.uris0;
                 atom_body := urid_payload (m_bool_test Demo.uris0) |}
              {| atom_type := atom_Bool Demo.uris0;
                 atom_body := bool_payload false |} false)
    as (w' & Hrun & _ & Hcalls); try reflexivity.
  - discriminate.
  - vm_compute. split; discriminate.
  - exists w'. split; [exact Hrun|]. rewrite Hcalls. reflexivity.
Defined.

(** ** More on instantiation *)

Lemma feature_data_app (uri : string) (l1 l2 : list LV2_Feature) (init : pointer) :
  feature_data uri (l1 ++ l2) init = feature_data uri l2 (feature_data uri l1 init).
Proof. unfold feature_data. apply fold_left_app. Qed.

Lemma feature_data_skip (uri : string) (l1 l2 : list LV2_Feature)
    (f : LV2_Feature) (init : pointer) :
  URI f <> uri ->
  feature_data uri (l1 ++ f :: l2) init = feature_data uri (l1 ++ l2) init.
Proof.
  intros Hne. rewrite !feature_data_app. unfold feature_data at 1.
  cbn [fold_left]. destruct (String.eqb_spec (URI f) uri); [contradiction|].
  reflexivity.
Qed.

Lemma feature_data_later (uri : string) (l : list LV2_Feature) (i1 i2 : pointer) :
  (exists g, In g l /\ URI g = uri) ->
  feature_data uri l i1 = feature_data uri l i2.
Proof.
  revert i1 i2. induction l as [|f l IH]; intros i1 i2 (g & Hin & Hg).
  - destruct Hin.
  - unfold feature_data. cbn [fold_left]. fold (feature_data uri l).
    destruct (String.eqb_spec (URI f) uri) as [E|NE]; [reflexivity|].
    apply IH. destruct Hin as [->|Hin]; [contradiction|]. now exists g.
Qed.

Lemma feature_data_overridden (uri : string) (l1 l2 : list LV2_Feature)
    (f : LV2_Feature) (init : pointer) :
  (exists g, In g l2 /\ URI g = uri) ->
  feature_data uri (l1 ++ f :: l2) init = feature_data uri (l1 ++ l2) init.
Proof.
  intros Hg. rewrite !feature_data_app.
  change (feature_data uri (f :: l2) (feature_data uri l1 init))
    with (feature_data uri l2
            (if String.eqb (URI f) uri then data f else feature_data uri l1 init)).
  now apply feature_data_later.
Qed.

Lemma instantiate_ext urid_map descriptor rate bundle_path (fs fs' : list LV2_Feature) :
  feature_data LV2_URID__map fs NULL = feature_data LV2_URID__map fs' NULL ->
  feature_data LV2_LOG__log fs NULL = feature_data LV2_LOG__log fs' NULL ->
  feature_data LV2_UI__requestValue fs NULL
  = feature_data LV2_UI__requestValue fs' NULL ->
  instantiate urid_map descriptor rate bundle_path fs
  = instantiate urid_map descriptor rate bundle_path fs'.
Proof.
  intros Hm Hl Hr. unfold instantiate. rewrite !scan_features.
  now rewrite Hm, Hl, Hr.
Qed.

(** X13. [instantiate] takes, for each of urid:map, log:log and
    ui:requestValue, the last entry of the feature array that names it: an
    entry that names none of the three can be taken out of the array without
    any change to the outcome, and so can an entry that a later one with the
    same URI follows. *)
Theorem instantiate_reads_last_entries
    (urid_map : pointer -> string -> LV2_URID) (descriptor : pointer)
    (rate : double) (bundle_path : string)
    (l1 l2 : list LV2_Feature) (f : LV2_Feature) :
  (URI f <> LV2_URID__map /\ URI f <> LV2_LOG__log
   /\ URI f <> LV2_UI__requestValue)
  \/ (exists g, In g l2 /\ URI g = URI f) ->
  instantiate urid_map descriptor rate bundle_path (l1 ++ f :: l2)
  = instantiate urid_map descriptor rate bundle_path (l1 ++ l2).
Proof.
  intros H.
  assert (Huri : forall uri,
            uri = LV2_URID__map \/ uri = LV2_LOG__log
            \/ uri = LV2_UI__requestValue ->
            feature_data uri (l1 ++ f :: l2) NULL = feature_data uri (l1 ++ l2) NULL).
  { intros uri Huri. destruct H as [(H1 & H2 & H3)|(g & Hin & Hg)].
    - apply feature_data_skip. destruct Huri as [->|[->| ->]]; assumption.
    - destruct (String.eqb_spec (URI f) uri) as [E|NE].
      + apply feature_data_overridden. exists g. split; [assumption|congruence].
      + now apply feature_data_skip. }
  apply instantiate_ext; apply Huri; auto.
Qed.

Lemma instantiate_reads_last_entries_witness :
  instantiate Demo.urid_map 0 Demo.rate_48000 EmptyString
    ({| URI := LV2_URID__map; data := NULL |}
     :: {| URI := "http://lv2plug.in/ns/ext/options#options"%string; data := 77 |}
     :: Demo.host_features)
  = ([], Some Demo.self0).
Proof.
  refine (eq_trans
            (instantiate_reads_last_entries Demo.urid_map 0 Demo.rate_48000
               EmptyString []
               ({| URI := "http://lv2plug.in/ns/ext/options#options"%string;
                   data := 77 |} :: Demo.host_features)
               {| URI := LV2_URID__map; data := NULL |} _) _).
  - right. exists Demo.map_feature. split; [right; now left|reflexivity].
  - refine (eq_trans
              (instantiate_reads_last_entries Demo.urid_map 0 Demo.rate_48000
                 EmptyString [] Demo.host_features
                 {| URI := "http://lv2plug.in/ns/ext/options#options"%string;
                    data := 77 |} _) _).
    + left. repeat split; discriminate.
    + reflexivity.
Defined.

(** X14. What a failed [instantiate] reports.  Without ui:requestValue the
    one report is the one about ui:request_value, also when urid:map is
    missing as well, and it goes through the logger made of whatever map
    and log the host passed.  With ui:requestValue but without urid:map the
    one report is the one about urid:map; it goes to the host's log when
    there is one, with the type 0 since no map could name log:Error, and to
    [stderr] otherwise. *)
Theorem instantiate_failure_report
    (urid_map : pointer -> string -> LV2_URID) (descriptor : pointer)
    (rate : double) (bundle_path : string) (fs : list LV2_Feature) :
  let map := feature_data LV2_URID__map fs NULL in
  let log := feature_data LV2_LOG__log fs NULL in
  (omitted LV2_UI__requestValue fs ->
     instantiate urid_map descriptor rate bundle_path fs
     = ([lv2_log_error (lv2_log_logger_init urid_map map log)
                       msg_no_request_value []], None))
  /\ (supplied LV2_UI__requestValue fs -> omitted LV2_URID__map fs ->
        instantiate urid_map descriptor rate bundle_path fs
        = ([if log =? NULL then stderr_vfprintf msg_no_urid_map []
            else log_vprintf log 0 msg_no_urid_map []], None)).
Proof.
  intros map log. subst map log. unfold instantiate. rewrite scan_features.
  split.
  - intros Hom. rewrite (feature_data_omitted _ _ _ Hom). reflexivity.
  - intros [Hr1 Hr2] Hom.
    pose proof (feature_data_supplied _ _ NULL Hr2 (or_intror Hr1)) as Hr.
    apply Z.eqb_neq in Hr. rewrite Hr.
    rewrite (feature_data_omitted _ _ _ Hom), Z.eqb_refl.
    unfold lv2_log_error, lv2_log_vprintf, lv2_log_logger_init.
    rewrite Z.eqb_refl. cbn [negb logger_log Error].
    now destruct (feature_data LV2_LOG__log fs NULL =? NULL).
Qed.

Lemma instantiate_failure_report_witness :
  instantiate Demo.urid_map 0 Demo.rate_48000 EmptyString [Demo.log_feature]
  = ([log_vprintf 2000 0 msg_no_request_value []], None)
  /\ instantiate Demo.urid_map 0 Demo.rate_48000 EmptyString
       [Demo.log_feature; Demo.request_feature]
     = ([log_vprintf 2000 0 msg_no_urid_map []], None).
Proof.
  split.
  - apply (proj1 (instantiate_failure_report Demo.urid_map 0 Demo.rate_48000
                    EmptyString [Demo.log_feature])).
    intros f [<-|[]]. discriminate.
  - apply (proj2 (instantiate_failure_report Demo.urid_map 0 Demo.rate_48000
                    EmptyString [Demo.log_feature; Demo.request_feature])).
    + split; [exists Demo.request_feature; split; [right; now left|reflexivity]|].
      intros f [<-|[<-|[]]]; discriminate.
    + intros f [<-|[<-|[]]]; discriminate.
Defined.

(** ** Members the decoder does not look at, events the state does not keep *)

Lemma lv2_atom_object_get_app (obj : LV2_Atom_Object)
    (extra : list LV2_Atom_Property_Body) (k : LV2_URID) (a : LV2_Atom) :
  lv2_atom_object_get obj k = Some a ->
  lv2_atom_object_get (with_properties (properties obj ++ extra) obj) k = Some a.
Proof.
  unfold lv2_atom_object_get. cbn [properties with_properties].
  destruct (k =? 0); [discriminate|].
  induction (properties obj) as [|p ps IH]; cbn [find app]; [discriminate|].
  destruct (key p =? k); [trivial|exact IH].
Qed.

(** X15. The decoder looks at the first member with the property key and at
    the first member with the value key, and at nothing else: members put
    behind a message that has both (or whose property member is not typed
    URID, which settles the outcome) change neither the result nor the
    report. *)
Theorem later_members_are_ignored (obj : LV2_Atom_Object)
    (extra : list LV2_Atom_Property_Body) (w : World) (property : LV2_Atom) :
  lv2_atom_object_get obj (patch_property (uris (instance w))) = Some property ->
  atom_type property <> atom_URID (uris (instance w))
  \/ lv2_atom_object_get obj (patch_value (uris (instance w))) <> None ->
  parse_property (with_properties (properties obj ++ extra) obj) w
  = parse_property obj w.
Proof.
  intros Hp Hv. unfold parse_property, bind, get_self.
  rewrite (lv2_atom_object_get_app _ extra _ _ Hp), Hp.
  destruct (atom_type property =? atom_URID (uris (instance w))) eqn:Hty;
    cbn [negb]; [|reflexivity].
  destruct Hv as [Hv|Hv]; [apply Z.eqb_eq in Hty; contradiction|].
  destruct (lv2_atom_object_get obj (patch_value (uris (instance w))))
    as [val|] eqn:Hval; [|contradiction].
  now rewrite (lv2_atom_object_get_app _ extra _ _ Hval).
Qed.

Lemma later_members_are_ignored_witness :
  parse_property
    (with_properties
       (properties (Demo.set_bool true) ++ properties (Demo.set_bool false))
       (Demo.set_bool true)) Demo.world1
  = parse_property (Demo.set_bool true) Demo.world1.
Proof.
  apply (later_members_are_ignored (Demo.set_bool true)
           (properties (Demo.set_bool false)) Demo.world1
           {| atom_type := atom_URID Demo.uris0;
              atom_body := urid_payload (m_bool_test Demo.uris0) |}).
  - reflexivity.
  - right. discriminate.
Defined.

(** X16. What the control events say is reported and then forgotten: two
    cycles that start from the same world but for the content of the
    control sequences end with the same instance, the same audio memory
    and the same requests made. *)
Theorem events_leave_no_trace_in_the_state (n_samples : Z) (w w1 w2 : World)
    (q : pointer -> LV2_Atom_Sequence) :
  run n_samples w = Some (tt, w1) ->
  run n_samples (with_sequences q w) = Some (tt, w2) ->
  instance w1 = instance w2
  /\ audio w1 = audio w2
  /\ requests (calls w1) = requests (calls w2).
Proof.
  intros H1 H2. apply run_effect in H1. apply run_effect in H2.
  cbn [instance with_sequences] in H2.
  destruct (control (instance w) =? NULL).
  - subst w1 w2. repeat split.
  - destruct H1 as (cs1 & Hc1 & _ & ->). destruct H2 as (cs2 & Hc2 & _ & ->).
    cbn [instance audio calls with_sequences].
    rewrite !requests_app, Hc1, Hc2. repeat split.
Qed.

Lemma events_leave_no_trace_in_the_state_witness :
  exists w1 w2,
    run 64 Demo.world1 = Some (tt, w1)
    /\ run 64 Demo.world2 = Some (tt, w2)
    /\ instance w1 = instance w2.
Proof.
  destruct (run_defined 64 Demo.world1) as (w1 & H1); [vm_compute; reflexivity|].
  destruct (run_defined 64 Demo.world2) as (w2 & H2); [vm_compute; reflexivity|].
  exists w1, w2. split; [exact H1|]. split; [exact H2|].
  exact (proj1 (events_leave_no_trace_in_the_state 64 Demo.world1 w1 w2
                  Demo.one_message H1 H2)).
Defined.
